(** * lz4-java fuzz runner ([scripts/fuzz_runner.py]): a shallow embedding

    The development follows the script top-down: path sanitising
    ([sanitize_for_path], with the SHA-1 digest it calls), the workspace
    copy filter ([_ignore] under [shutil.copytree]), the process streamer
    ([stream_process]), the per-job driver ([run_job]), the admission gate
    ([asyncio.Semaphore] around [run_one]), the completion drain of
    [main_async], and the report builder ([make_report_json]). *)

From Stdlib Require Import ZArith Ascii Lia.
From stdpp Require Import base option list strings gmap fin_maps pretty sorting.

Local Open Scope Z_scope.

(** ** SHA-1 ([hashlib.sha1(...).hexdigest()]) *)

Module Sha1.

Definition mask32 (x : Z) : Z := x mod 2 ^ 32.

Definition add32 (x y : Z) : Z := mask32 (x + y).

Definition rotl32 (n x : Z) : Z :=
  mask32 (Z.lor (Z.shiftl x n) (Z.shiftr x (32 - n))).

(** Message padding: a single 1 bit, zeros up to 56 mod 64, and the bit
    length as a big-endian 64-bit integer. *)
Fixpoint be_bytes (n : nat) (x : Z) : list Z :=
  match n with
  | O => []
  | S k => (Z.shiftr x (8 * Z.of_nat k)) mod 256 :: be_bytes k x
  end.

Definition pad (msg : list Z) : list Z :=
  let len := Z.of_nat (length msg) in
  let zeros := Z.to_nat ((55 - len) mod 64) in
  msg ++ 128 :: repeat 0 zeros ++ be_bytes 8 (8 * len).

Fixpoint be_words (fuel : nat) (bs : list Z) : list Z :=
  match fuel, bs with
  | S k, b0 :: b1 :: b2 :: b3 :: rest =>
      (Z.shiftl b0 24 + Z.shiftl b1 16 + Z.shiftl b2 8 + b3) :: be_words k rest
  | _, _ => []
  end.

(** Message schedule; [ws] holds the words produced so far, most recent
    first. *)
Fixpoint expand (n : nat) (ws : list Z) : list Z :=
  match n with
  | O => ws
  | S k =>
      let w := rotl32 1 (Z.lxor (Z.lxor (nth 2 ws 0) (nth 7 ws 0))
                                (Z.lxor (nth 13 ws 0) (nth 15 ws 0))) in
      expand k (w :: ws)
  end.

Definition schedule (block : list Z) : list Z :=
  rev (expand 64 (rev block)).

Definition round_f (t : nat) (b c d : Z) : Z :=
  if (t <? 20)%nat then Z.lor (Z.land b c) (Z.land (mask32 (Z.lnot b)) d)
  else if (t <? 40)%nat then Z.lxor (Z.lxor b c) d
  else if (t <? 60)%nat then
    Z.lor (Z.lor (Z.land b c) (Z.land b d)) (Z.land c d)
  else Z.lxor (Z.lxor b c) d.

Definition round_k (t : nat) : Z :=
  if (t <? 20)%nat then 0x5A827999
  else if (t <? 40)%nat then 0x6ED9EBA1
  else if (t <? 60)%nat then 0x8F1BBCDC
  else 0xCA62C1D6.

Definition hstate : Type := Z * Z * Z * Z * Z.

Fixpoint rounds (t : nat) (ws : list Z) (st : hstate) : hstate :=
  match ws with
  | [] => st
  | w :: ws' =>
      let '(a, b, c, d, e) := st in
      let tmp :=
        add32 (add32 (add32 (add32 (rotl32 5 a) (round_f t b c d)) e)
                     (round_k t)) w in
      rounds (S t) ws' (tmp, a, rotl32 30 b, c, d)
  end.

Definition compress (st : hstate) (block : list Z) : hstate :=
  let '(h0, h1, h2, h3, h4) := st in
  let '(a, b, c, d, e) := rounds 0 (schedule block) st in
  (add32 h0 a, add32 h1 b, add32 h2 c, add32 h3 d, add32 h4 e).

Fixpoint blocks (fuel : nat) (ws : list Z) (st : hstate) : hstate :=
  match fuel with
  | O => st
  | S k =>
      match ws with
      | [] => st
      | _ => blocks k (drop 16 ws) (compress st (take 16 ws))
      end
  end.

Definition init : hstate :=
  (0x67452301, 0xEFCDAB89, 0x98BADCFE, 0x10325476, 0xC3D2E1F0).

Definition digest (msg : list Z) : hstate :=
  let bs := pad msg in
  let ws := be_words (length bs) bs in
  blocks (length ws) ws init.

Definition hex_digit (x : Z) : ascii :=
  match x mod 16 with
  | 0 => "0" | 1 => "1" | 2 => "2" | 3 => "3" | 4 => "4" | 5 => "5"
  | 6 => "6" | 7 => "7" | 8 => "8" | 9 => "9" | 10 => "a" | 11 => "b"
  | 12 => "c" | 13 => "d" | 14 => "e" | _ => "f"
  end%char.

Fixpoint hex_word (n : nat) (x : Z) : string :=
  match n with
  | O => ""
  | S k => String (hex_digit (Z.shiftr x (4 * Z.of_nat k))) (hex_word k x)
  end.

Definition bytes_of_string (s : string) : list Z :=
  map (fun c => Z.of_nat (nat_of_ascii c)) (String.list_ascii_of_string s).

Definition hexdigest (s : string) : string :=
  let '(h0, h1, h2, h3, h4) := digest (bytes_of_string s) in
  hex_word 8 h0 +:+ hex_word 8 h1 +:+ hex_word 8 h2 +:+ hex_word 8 h3
    +:+ hex_word 8 h4.

End Sha1.

(** ** [sanitize_for_path]

    A Python [str] is modelled by the string of its UTF-8 bytes.  Every byte
    of a code point above 127 is itself above 127, hence outside the class
    [A-Za-z0-9._-]; since the pattern ends in [+], a maximal run of such
    bytes collapses to one underscore exactly as the run of code points
    does.  After the substitution the string is pure ASCII, so [len] counts
    bytes and [safe.encode()] is the identity. *)

Definition is_safe_char (c : ascii) : bool :=
  let n := nat_of_ascii c in
  ((65 <=? n) && (n <=? 90) || (97 <=? n) && (n <=? 122)
   || (48 <=? n) && (n <=? 57) || (n =? 46) || (n =? 95) || (n =? 45))%nat.

(** [re.sub(r"[^A-Za-z0-9._-]+", "_", s)]; [in_run] tells that the previous
    character already belonged to the run being replaced. *)
Fixpoint re_sub_unsafe (in_run : bool) (s : string) : string :=
  match s with
  | "" => ""
  | String c s' =>
      if is_safe_char c then String c (re_sub_unsafe false s')
      else if in_run then re_sub_unsafe true s'
      else String "_" (re_sub_unsafe true s')
  end.

Definition sanitize_for_path (s : string) : string :=
  let safe := re_sub_unsafe false s in
  if (150 <? String.length safe)%nat then
    let h := String.substring 0 8 (Sha1.hexdigest safe) in
    String.substring 0 120 safe +:+ "_" +:+ h
  else safe.

Fixpoint string_forallb (p : ascii -> bool) (s : string) : bool :=
  match s with
  | "" => true
  | String c s' => p c && string_forallb p s'
  end.

Fixpoint string_repeat (c : ascii) (n : nat) : string :=
  match n with
  | O => ""
  | S k => String c (string_repeat c k)
  end.

(** C10 as the specification words it: safe characters only, and at most
    129 of them. *)
Definition sanitize_claim (s : string) : Prop :=
  string_forallb is_safe_char (sanitize_for_path s) = true
  /\ (String.length (sanitize_for_path s) <= 129)%nat.

(** ** Data model *)

(** A [pathlib.Path] is the list of its components below the root:
    [p / x] appends one, [p.parent] removes the last. *)
Abbreviation Path := (list string) (only parsing).

Definition path_div (p : Path) (x : string) : Path := p ++ [x].
Infix "/:" := path_div (at level 40, left associativity).

Definition path_parent (p : Path) : Path := removelast p.

Definition path_str (p : Path) : string :=
  foldr (fun x acc => "/" +:+ x +:+ acc) "" p.

(** [os.path.relpath(p, start)] for two absolute, normalised paths; the
    empty list stands for [.]. *)
Fixpoint relpath (p start : Path) : Path :=
  match p, start with
  | x :: p', y :: start' =>
      if decide (x = y) then relpath p' start'
      else replicate (length start) ".." ++ p
  | _, _ => replicate (length start) ".." ++ p
  end.

Record FuzzExecution := mkExec {
  execution_id : string;
  test_spec : string;
  surefire_version : string;
  profile_id : string
}.

Global Instance FuzzExecution_eq_dec : EqDecision FuzzExecution.
Proof. solve_decision. Defined.

(** [s.split(sep, 1)]: the text before the first [sep] and, when there is
    one, the text after it. *)
Fixpoint split_once (sep : ascii) (s : string) : string * option string :=
  match s with
  | "" => ("", None)
  | String c s' =>
      if decide (c = sep) then ("", Some s')
      else let '(a, b) := split_once sep s' in (String c a, b)
  end.

Definition test_class (e : FuzzExecution) : option string :=
  Some (fst (split_once "#" (test_spec e))).

Definition test_method (e : FuzzExecution) : option string :=
  snd (split_once "#" (test_spec e)).

(** Timestamps ([time.time()]) are integers in some fixed unit; no claim
    depends on the rounding of their differences. *)
Record JobResult := mkJob {
  status : string;
  execution : FuzzExecution;
  build_dir : Path;
  findings_dir : Path;
  log_path : Path;
  start_time : option Z;
  end_time : option Z;
  exit_code : option Z;
  command : option (list string);
  last_lines : list string;
  surefire_report_dir : option Path
}.

Definition with_status (v : string) (r : JobResult) : JobResult :=
  mkJob v (execution r) (build_dir r) (findings_dir r) (log_path r)
    (start_time r) (end_time r) (exit_code r) (command r) (last_lines r)
    (surefire_report_dir r).

Definition with_build_dir (v : Path) (r : JobResult) : JobResult :=
  mkJob (status r) (execution r) v (findings_dir r) (log_path r)
    (start_time r) (end_time r) (exit_code r) (command r) (last_lines r)
    (surefire_report_dir r).

Definition with_start_time (v : Z) (r : JobResult) : JobResult :=
  mkJob (status r) (execution r) (build_dir r) (findings_dir r) (log_path r)
    (Some v) (end_time r) (exit_code r) (command r) (last_lines r)
    (surefire_report_dir r).

Definition with_end_time (v : Z) (r : JobResult) : JobResult :=
  mkJob (status r) (execution r) (build_dir r) (findings_dir r) (log_path r)
    (start_time r) (Some v) (exit_code r) (command r) (last_lines r)
    (surefire_report_dir r).

Definition with_exit_code (v : Z) (r : JobResult) : JobResult :=
  mkJob (status r) (execution r) (build_dir r) (findings_dir r) (log_path r)
    (start_time r) (end_time r) (Some v) (command r) (last_lines r)
    (surefire_report_dir r).

Definition with_command (v : list string) (r : JobResult) : JobResult :=
  mkJob (status r) (execution r) (build_dir r) (findings_dir r) (log_path r)
    (start_time r) (end_time r) (exit_code r) (Some v) (last_lines r)
    (surefire_report_dir r).

Definition with_last_lines (v : list string) (r : JobResult) : JobResult :=
  mkJob (status r) (execution r) (build_dir r) (findings_dir r) (log_path r)
    (start_time r) (end_time r) (exit_code r) (command r) v
    (surefire_report_dir r).

Definition with_surefire_report_dir (v : Path) (r : JobResult) : JobResult :=
  mkJob (status r) (execution r) (build_dir r) (findings_dir r) (log_path r)
    (start_time r) (end_time r) (exit_code r) (command r) (last_lines r)
    (Some v).

(** [filter_executions]: [pat in s] is substring search. *)
Definition contains (pat s : string) : bool :=
  bool_decide (is_Some (String.index 0 pat s)).

Definition filter_executions (execs : list FuzzExecution)
    (pattern : option string) : list FuzzExecution :=
  match pattern with
  | None => execs
  | Some "" => execs
  | Some pat =>
      filter (fun e => contains pat (execution_id e) || contains pat (test_spec e))
             execs
  end.

(** ** Workspace isolation: [_ignore] under [shutil.copytree] *)

#[warnings="-register-all"] Inductive entry :=
  | File (name : string)
  | Dir (name : string) (children : list entry).

Definition entry_name (x : entry) : string :=
  match x with File n => n | Dir n _ => n end.

Definition startswith (s pre : string) : bool := String.prefix pre s.

Definition exact_ignored : list string := [".git"; ".idea"; "target"; "fuzz-out"].

Definition is_crash_artifact (n : string) : bool :=
  startswith n "hs_err_pid" || startswith n "crash-".

(** The callback handed to [copytree].  Python's [A or B] on two sets is
    [A] when [A] is not empty and [B] otherwise. *)
Definition _ignore (dir : Path) (names : list string) : gset string :=
  let first : gset string :=
    list_to_set (filter (fun n => n ∈ exact_ignored) names) in
  if decide (first = ∅)
  then list_to_set (filter (fun n => is_crash_artifact n = true) names)
  else first.

(** [shutil.copytree(src, dst, ignore=...)] on the tree below [src]: the
    callback sees the names of one directory at a time, the entries it
    returns are skipped, and subdirectories are copied the same way. *)
Fixpoint copy_entry (ignore : Path -> list string -> gset string)
    (src : Path) (x : entry) : entry :=
  match x with
  | File n => File n
  | Dir n children =>
      let here := src /: n in
      let ignored := ignore here (map entry_name children) in
      Dir n (omap (fun c => if decide (entry_name c ∈ ignored) then None
                            else Some (copy_entry ignore here c))
               children)
  end.

Definition copytree (ignore : Path -> list string -> gset string)
    (src : Path) (children : list entry) : list entry :=
  let ignored := ignore src (map entry_name children) in
  omap (fun c => if decide (entry_name c ∈ ignored) then None
                 else Some (copy_entry ignore src c))
    children.

(** Every name met in a tree, at any depth. *)
Fixpoint names_of (x : entry) : list string :=
  match x with
  | File n => [n]
  | Dir n children => n :: concat (map names_of children)
  end.

Definition tree_names (t : list entry) : list string :=
  concat (map names_of t).

(** A name that one of the exclusion patterns covers. *)
Definition excluded_name (n : string) : bool :=
  bool_decide (n ∈ exact_ignored) || is_crash_artifact n.

(** ** Effects of one job

    A job touches its own [JobResult] object, its own directory under the
    output root and the processes it launches.  [jstate] is that part of the
    world; [invoked] and [history] are logs kept beside it: the argument
    vector, working directory and environment of every
    [create_subprocess_exec] call, and every value assigned to
    [result.status], oldest first. *)

Inductive exn :=
  | Exception (what : string)   (* any subclass of [Exception] *)
  | CancelledError.             (* derives from [BaseException] *)

(** What an external process does: it cannot be spawned, or it writes
    [lines] (what successive [readline] calls return) and then either
    reaches end of file and exits with [code], or an await on it
    ([readline] or [wait]) raises. *)
Inductive proc_end :=
  | Exit (code : Z)
  | Abort (e : exn).

Inductive proc :=
  | SpawnFails (e : exn)
  | Spawned (lines : list string) (fin : proc_end).

(** What [shutil.copytree] does: it completes; it raises before the
    destination exists ([os.scandir] on the source or [os.makedirs] on the
    destination fails); or it raises after having created the destination
    and copied [partial]. *)
Inductive copy_outcome :=
  | CopyDone
  | CopyFailsBefore (what : string)
  | CopyFailsDuring (what : string) (partial : list entry).

Record job_env := mkEnv {
  base_tree : list entry;
  copy_result : copy_outcome;
  compile_proc : proc;
  run_proc : proc;
  clock : nat -> Z              (* the n-th reading of [time.time()] *)
}.

Record jstate := mkState {
  res : JobResult;
  job_dir : bool;                    (* the directory of [build.log] exists *)
  work : option (list entry);        (* the tree under [work], if any *)
  log : option (list string);        (* [build.log]: the chunks written *)
  invoked : list (list string * Path * gmap string string);
  history : list string;
  ticks : nat
}.

Inductive outcome (A : Type) :=
  | Ok (a : A)
  | Raise (e : exn).
Arguments Ok {A} a.
Arguments Raise {A} e.

Definition M (A : Type) : Type := jstate -> jstate * outcome A.

Definition ret {A} (a : A) : M A := fun st => (st, Ok a).

Definition raise {A} (e : exn) : M A := fun st => (st, Raise e).

Definition bind {A B} (m : M A) (k : A -> M B) : M B :=
  fun st =>
    match m st with
    | (st', Ok a) => k a st'
    | (st', Raise e) => (st', Raise e)
    end.

Definition try_except {A} (m : M A) (handler : exn -> M A) : M A :=
  fun st =>
    match m st with
    | (st', Ok a) => (st', Ok a)
    | (st', Raise e) => handler e st'
    end.

Declare Scope job_scope.
Delimit Scope job_scope with job.
Notation "x <- m ;; k" := (bind m (fun x => k))
  (at level 100, m at next level, right associativity) : job_scope.
Notation "m ;; k" := (bind m (fun _ => k))
  (at level 100, right associativity) : job_scope.
Local Open Scope job_scope.

Definition get_res : M JobResult := fun st => (st, Ok (res st)).

Definition modify_res (f : JobResult -> JobResult) : M unit :=
  fun st =>
    (mkState (f (res st)) (job_dir st) (work st) (log st) (invoked st)
       (history st) (ticks st), Ok tt).

Definition set_status (v : string) : M unit :=
  fun st =>
    (mkState (with_status v (res st)) (job_dir st) (work st) (log st)
       (invoked st) (history st ++ [v]) (ticks st), Ok tt).

Definition time_time (clk : nat -> Z) : M Z :=
  fun st =>
    (mkState (res st) (job_dir st) (work st) (log st) (invoked st)
       (history st) (S (ticks st)), Ok (clk (ticks st))).

Definition note_invocation (cmd : list string) (cwd : Path)
    (env : gmap string string) : M unit :=
  fun st =>
    (mkState (res st) (job_dir st) (work st) (log st)
       (invoked st ++ [(cmd, cwd, env)]) (history st) (ticks st), Ok tt).

(** [log_file.parent.mkdir(parents=True, exist_ok=True)] *)
Definition mkdir_log_parent : M unit :=
  fun st =>
    (mkState (res st) true (work st) (log st) (invoked st) (history st)
       (ticks st), Ok tt).

(** [log_file.open("wb")] truncates. *)
Definition open_wb : M unit :=
  fun st =>
    (mkState (res st) (job_dir st) (work st) (Some []) (invoked st)
       (history st) (ticks st), Ok tt).

Definition write_log (chunk : string) : M unit :=
  fun st =>
    (mkState (res st) (job_dir st) (work st)
       (Some (default [] (log st) ++ [chunk])) (invoked st) (history st)
       (ticks st), Ok tt).

(** [log_path.open("a", ...)] followed by one [write]: the file is created
    when absent, its directory is not. *)
Definition append_log (chunk : string) : M unit :=
  fun st =>
    if job_dir st then write_log chunk st
    else (st, Raise (Exception "FileNotFoundError")).

(** The tree [t] now stands under [work]; [os.makedirs] has created the
    job directory on the way. *)
Definition set_work (t : list entry) : M unit :=
  fun st =>
    (mkState (res st) true (Some t) (log st) (invoked st) (history st)
       (ticks st), Ok tt).

Definition nl : string := String "010" "".

Section Runner.

(** [line.decode(errors="replace").rstrip()], the text kept of one output
    line. *)
Variable text_of_line : string -> string.

Definition tail_max : nat := 8.

(** [last_lines.append(sline)], then [last_lines.pop(0)] when the list
    has grown beyond [tail_max].  No await separates the two statements, so
    the list of [tail_max + 1] lines in between is seen by nobody, and
    [result.last_lines] is assigned after the pop. *)
Definition push_tail (last_lines : list string) (sline : string)
    : list string :=
  let appended := last_lines ++ [sline] in
  if (tail_max <? length appended)%nat then drop 1 appended else appended.

(** The [while True] loop; an empty [readline] result is end of file.
    The value returned is the local list [last_lines] when the loop is
    left; [result.last_lines] receives a copy of it after every line. *)
Fixpoint read_loop (lines : list string) (last_lines : list string)
    : M (list string) :=
  match lines with
  | [] => ret last_lines
  | line :: rest =>
      if decide (line = "") then ret last_lines
      else
        write_log line ;;
        let last_lines' := push_tail last_lines (text_of_line line) in
        modify_res (with_last_lines last_lines') ;;
        read_loop rest last_lines'
  end.

Definition stream_process (clk : nat -> Z) (cmd : list string) (cwd : Path)
    (env : gmap string string) (p : proc) : M unit :=
  note_invocation cmd cwd env ;;
  match p with
  | SpawnFails e => raise e
  | Spawned lines fin =>
      t <- time_time clk ;;
      modify_res (with_start_time t) ;;
      set_status "running" ;;
      mkdir_log_parent ;;
      open_wb ;;
      _ <- read_loop lines [] ;;
      match fin with
      | Abort e => raise e
      | Exit code =>
          modify_res (with_exit_code code) ;;
          t' <- time_time clk ;;
          modify_res (with_end_time t') ;;
          set_status (if decide (code = 0) then "passed" else "failed")
      end
  end.

Definition build_maven_command (mvnw : string) (execution : FuzzExecution)
    (build : Path) (duration : string) (batch : bool)
    (rss_limit_mb xmx_mb : Z) : list string :=
  let jazzer_flags := "-rss_limit_mb=" +:+ pretty rss_limit_mb in
  let asan_opts :=
    "detect_leaks=1,abort_on_error=1,fast_unwind_on_malloc=0,hard_rss_limit_mb="
      +:+ pretty rss_limit_mb in
  [mvnw; "-P"; profile_id execution]
    ++ (if batch then ["-B"] else [])
    ++ ["-Djazzer.max_duration=" +:+ duration;
        "-Denv.JAZZER_FLAGS=" +:+ jazzer_flags;
        "-Denv.ASAN_OPTIONS=" +:+ asan_opts;
        "-Denv.JAVA_TOOL_OPTIONS=-Xmx" +:+ pretty xmx_mb +:+ "m";
        "-DargLine=-Xmx" +:+ pretty xmx_mb +:+ "m";
        "org.apache.maven.plugins:maven-surefire-plugin:"
          +:+ surefire_version execution +:+ ":test@"
          +:+ execution_id execution].

Definition compile_command (mvnw : string) (execution : FuzzExecution)
    (batch : bool) : list string :=
  [mvnw; "-P"; profile_id execution]
    ++ (if batch then ["-B"] else []) ++ ["test-compile"].

(** [env.setdefault(k, v)] *)
Definition setdefault (k v : string) (m : gmap string string)
    : gmap string string :=
  match m !! k with Some _ => m | None => <[k := v]> m end.

Definition fuzz_env (env_base : gmap string string) (findings : Path)
    (rss_limit_mb : Z) : gmap string string :=
  <["JAZZER_FLAGS" := "-rss_limit_mb=" +:+ pretty rss_limit_mb]>
    (setdefault "JAZZER_FUZZ" "1"
       (<["JAZZER_FINDINGS_DIR" := path_str findings]> env_base)).

Definition compile_env (env_base : gmap string string)
    : gmap string string :=
  foldl (fun m k => delete k m) env_base
    ["JAZZER_FUZZ"; "JAZZER_FLAGS"; "ASAN_OPTIONS"; "JAVA_TOOL_OPTIONS"].

(** [if not work_dir.exists(): shutil.copytree(base_dir, work_dir,
    ignore=_ignore)] *)
Definition isolate (w : job_env) (base_dir : Path) : M unit :=
  fun st =>
    match work st with
    | Some _ => (st, Ok tt)
    | None =>
        match copy_result w with
        | CopyDone => set_work (copytree _ignore base_dir (base_tree w)) st
        | CopyFailsBefore what => (st, Raise (Exception what))
        | CopyFailsDuring what partial =>
            (set_work partial ;; raise (Exception what)) st
        end
    end.

(** The [except] clauses around the run phase. *)
Definition on_run_fault (clk : nat -> Z) (e : exn) : M unit :=
  match e with
  | CancelledError =>
      set_status "cancelled" ;;
      t <- time_time clk ;;
      modify_res (with_end_time t) ;;
      append_log (nl +:+ nl +:+ "[Cancelled]" +:+ nl) ;;
      raise CancelledError
  | Exception what =>
      set_status "failed" ;;
      t <- time_time clk ;;
      modify_res (with_end_time t) ;;
      append_log (nl +:+ nl +:+ "[Runner Exception]" +:+ nl) ;;
      append_log what
  end.

(** [run_job] returns the [result] object it was given: the [JobResult]
    returned is [res] of the final state. *)
Definition run_job (w : job_env) (base_dir : Path) (mvnw : string)
    (execution : FuzzExecution) (duration : string)
    (env_base : gmap string string) (batch : bool)
    (rss_limit_mb xmx_mb : Z) : M unit :=
  set_status "queued" ;;
  r0 <- get_res ;;
  let env := fuzz_env env_base (findings_dir r0) rss_limit_mb in
  let job_root := path_parent (log_path r0) in
  let work_dir := job_root /: "work" in
  isolate w base_dir ;;
  modify_res (with_build_dir (work_dir /: "target")) ;;
  modify_res
    (with_surefire_report_dir (work_dir /: "target" /: "surefire-reports")) ;;
  let env_compile := compile_env env_base in
  let cmd_compile := compile_command mvnw execution batch in
  modify_res (with_command cmd_compile) ;;
  stream_process (clock w) cmd_compile work_dir env_compile
    (compile_proc w) ;;
  r1 <- get_res ;;
  if decide (exit_code r1 = Some 0) then
    r2 <- get_res ;;
    let cmd :=
      build_maven_command mvnw execution (build_dir r2) duration batch
        rss_limit_mb xmx_mb in
    modify_res (with_command cmd) ;;
    try_except
      (stream_process (clock w) cmd work_dir env (run_proc w))
      (on_run_fault (clock w))
  else ret tt.

End Runner.

(** *** Vocabulary for the statements about one job *)

(** The lines read before end of file. *)
Fixpoint upto_eof (lines : list string) : list string :=
  match lines with
  | [] => []
  | line :: rest => if decide (line = "") then [] else line :: upto_eof rest
  end.

(** The ring buffer after the texts [ts] have been pushed onto [last]. *)
Definition tail_of (last : list string) (ts : list string) : list string :=
  foldl push_tail last ts.

(** The argument vectors of the processes launched so far, and of those
    launched between two states. *)
Definition commands (st : jstate) : list (list string) :=
  map (fun x => x.1.1) (invoked st).

Definition launched (before after : jstate) : list (list string) :=
  drop (length (commands before)) (commands after).

(** The statuses assigned between two states. *)
Definition assigned (before after : jstate) : list string :=
  drop (length (history before)) (history after).

(** In the sequence [h] of statuses, a status of the class [terminal] is
    never followed by a different one. *)
Definition absorbing (terminal : string -> bool) (h : list string) : Prop :=
  forall i j s t,
    h !! i = Some s -> terminal s = true -> (i < j)%nat -> h !! j = Some t ->
    t = s.

Definition terminal_status (s : string) : bool :=
  bool_decide (s ∈ ["passed"; "failed"; "cancelled"; "errored"]).

Definition final_status (s : string) : bool :=
  bool_decide (s ∈ ["failed"; "cancelled"]).

Definition known_status (s : string) : bool :=
  bool_decide (s ∈ ["queued"; "running"; "passed"; "failed"; "cancelled"]).

(** What a run of [run_job] shows from outside: how it ends, the statuses
    it assigned, the processes it launched, and where it leaves the status,
    the exit code and the job directory. *)
Record run_facts := mkFacts {
  f_outcome : outcome unit;
  f_assigned : list string;
  f_launched : list (list string);
  f_status : string;
  f_exit_code : option Z;
  f_job_dir : bool
}.

Definition verdict (code : Z) : string :=
  if decide (code = 0) then "passed" else "failed".

(** The same facts read off the behaviour that the job meets; [cc] and [rc]
    are the compile and run commands. *)
Definition expected_facts (w : job_env) (cc rc : list string) (st : jstate)
    : run_facts :=
  let isolated : bool + string * bool :=
    match work st with
    | Some _ => inl (job_dir st)
    | None =>
        match copy_result w with
        | CopyDone => inl true
        | CopyFailsBefore what => inr (what, job_dir st)
        | CopyFailsDuring what _ => inr (what, true)
        end
    end in
  match isolated with
  | inr (what, dir) =>
      mkFacts (Raise (Exception what)) ["queued"] [] "queued"
        (exit_code (res st)) dir
  | inl dir =>
      match compile_proc w with
      | SpawnFails e =>
          mkFacts (Raise e) ["queued"] [cc] "queued" (exit_code (res st)) dir
      | Spawned _ (Abort e) =>
          mkFacts (Raise e) ["queued"; "running"] [cc] "running"
            (exit_code (res st)) true
      | Spawned _ (Exit code) =>
          if decide (code = 0) then
            match run_proc w with
            | SpawnFails (Exception _) =>
                mkFacts (Ok tt) ["queued"; "running"; "passed"; "failed"]
                  [cc; rc] "failed" (Some 0) true
            | SpawnFails CancelledError =>
                mkFacts (Raise CancelledError)
                  ["queued"; "running"; "passed"; "cancelled"]
                  [cc; rc] "cancelled" (Some 0) true
            | Spawned _ (Abort (Exception _)) =>
                mkFacts (Ok tt)
                  ["queued"; "running"; "passed"; "running"; "failed"]
                  [cc; rc] "failed" (Some 0) true
            | Spawned _ (Abort CancelledError) =>
                mkFacts (Raise CancelledError)
                  ["queued"; "running"; "passed"; "running"; "cancelled"]
                  [cc; rc] "cancelled" (Some 0) true
            | Spawned _ (Exit code') =>
                mkFacts (Ok tt)
                  ["queued"; "running"; "passed"; "running"; verdict code']
                  [cc; rc] (verdict code') (Some code') true
            end
          else
            mkFacts (Ok tt) ["queued"; "running"; "failed"] [cc] "failed"
              (Some code) true
      end
  end.

(** ** The report builder: [make_report_json] *)

Record Summary := mkSummary {
  total : nat;
  passed : nat;
  failed : nat;
  cancelled : nat;
  duration_seconds : Z
}.

(** One element of ["tests"].  The two timestamps stand for their ISO-8601
    renderings. *)
Record TestEntry := mkTest {
  t_id : string;
  t_test : string;
  t_class : option string;
  t_method : option string;
  t_status : string;
  t_exit_code : option Z;
  t_started_at : option Z;
  t_ended_at : option Z;
  t_duration_seconds : option Z;
  t_build_dir : Path;
  t_surefire_report_dir : option Path;
  t_findings_dir : Path;
  t_log_path : Path;
  t_command : option (list string)
}.

Record Report := mkReport {
  generated_at : Z;
  project : string;
  profile : string;
  jazzer_duration : string;
  concurrency : Z;
  maven_command : string;
  report_out_dir : Path;
  summary : Summary;
  tests : list TestEntry
}.

(** [sum(1 for r in results.values() if r.status == v)] *)
Definition count_status (v : string) (results : gmap string JobResult) : nat :=
  length (filter (fun kr => status kr.2 = v) (map_to_list results)).

(** [x or time.time()]: [None] and [0.0] are both falsy; the clock is read
    only then. *)
Definition or_now (x : option Z) (clk : nat -> Z) (n : nat) : Z * nat :=
  match x with
  | Some v => if decide (v = 0) then (clk n, S n) else (v, n)
  | None => (clk n, S n)
  end.

(** [min(...)] or [max(...)] of [(field(r) or time.time()) for r in ...];
    the generator reads the clock as it goes. *)
Definition extremum (pick : Z -> Z -> Z) (field : JobResult -> option Z)
    (clk : nat -> Z) (rs : list JobResult) (n : nat) : option Z * nat :=
  foldl
    (fun acc r =>
       let '(v, n') := or_now (field r) clk acc.2 in
       (Some (match acc.1 with Some a => pick a v | None => v end), n'))
    (None, n) rs.

(** [x if x else None] on an optional timestamp. *)
Definition truthy (x : option Z) : option Z :=
  match x with
  | Some v => if decide (v = 0) then None else Some v
  | None => None
  end.

Definition test_entry (base : Path) (r : JobResult) : TestEntry :=
  mkTest (execution_id (execution r)) (test_spec (execution r))
    (test_class (execution r)) (test_method (execution r))
    (status r) (exit_code r)
    (truthy (start_time r)) (truthy (end_time r))
    (match truthy (end_time r), truthy (start_time r) with
     | Some e, Some b => Some (e - b)
     | _, _ => None
     end)
    (relpath (build_dir r) base)
    ((fun d => relpath d base) <$> surefire_report_dir r)
    (relpath (findings_dir r) base)
    (relpath (log_path r) base)
    (command r).

(** [sorted(results.items())]: ascending keys (no two items share one). *)
Definition key_le (a b : string * JobResult) : Prop :=
  String.leb a.1 b.1 = true.

Global Instance key_le_dec : RelDecision key_le :=
  fun a b => decide (String.leb a.1 b.1 = true).

Definition sorted_items (results : gmap string JobResult)
    : list (string * JobResult) :=
  merge_sort key_le (map_to_list results).

Definition make_report_json (results : gmap string JobResult)
    (project profile duration : string) (concurrency : Z) (mvn_cmd : string)
    (out_dir base_dir : Path) (clk : nat -> Z) (n : nat) : Report :=
  let total := size results in
  let passed := count_status "passed" results in
  let failed := count_status "failed" results in
  let cancelled := count_status "cancelled" results in
  let values := (map_to_list results).*2 in
  let '(start_ts, n1) :=
    match values with
    | [] => (clk n, S n)
    | _ => let '(m, n') := extremum Z.min start_time clk values n in
           (default 0 m, n')
    end in
  let '(end_ts, n2) :=
    match values with
    | [] => (clk n1, S n1)
    | _ => let '(m, n') := extremum Z.max end_time clk values n1 in
           (default 0 m, n')
    end in
  let tests := map (fun kr => test_entry base_dir kr.2) (sorted_items results) in
  mkReport (clk n2) project profile duration concurrency mvn_cmd
    (relpath out_dir base_dir)
    (mkSummary total passed failed cancelled
       (if decide (total = 0%nat) then 0 else end_ts - start_ts))
    tests.

(** ** The scheduler: [main_async] *)

Record Args := mkArgs {
  args_base_dir : Path;
  args_out_dir : Path;
  args_mvn : string;             (* [str(mvnw)], already resolved *)
  args_profile : string;
  args_jobs : Z;
  args_duration : string;
  args_filter : option string;
  args_list : bool;
  args_no_batch : bool;
  args_rss_limit_mb : Z;
  args_xmx_mb : Z
}.

(** What lies outside the program during one run: per execution id, the
    behaviour met by its job and the state of its output directory at
    start; the process environment; the clock of the main coroutine; the
    order in which the job tasks complete and are taken up by the drain
    loop (a task that is not listed never completes); per execution id,
    the [OSError] (if any) that the [except] clause of the drain loop
    meets when it appends its note to a [build.log] whose directory
    exists; and the [OSError] (if any) met when the directories of the two
    report files are created and the files written. *)
Record world := mkWorld {
  envs : string -> job_env;
  job_dir0 : string -> bool;
  work0 : string -> option (list entry);
  log0 : string -> option (list string);
  os_environ : gmap string string;
  mclock : nat -> Z;
  completion : list string;
  note_fault : string -> option string;
  report_fault : option string
}.

Definition placeholder (out_dir : Path) (e : FuzzExecution) : JobResult :=
  let d := out_dir /: sanitize_for_path (execution_id e) in
  mkJob "queued" e (d /: "target") (d /: "findings") (d /: "build.log")
    None None None None [] (Some (d /: "target" /: "surefire-reports")).

(** The dict comprehension: a later execution with the same id replaces an
    earlier one. *)
Definition initial_results (out_dir : Path) (execs : list FuzzExecution)
    : gmap string JobResult :=
  foldl (fun m e => <[execution_id e := placeholder out_dir e]> m) ∅ execs.

(** The entry built in [except Exception]. *)
Definition failed_result (out_dir : Path) (e : FuzzExecution)
    (started ended : Z) : JobResult :=
  let d := out_dir /: sanitize_for_path (execution_id e) in
  mkJob "failed" e (d /: "target") (d /: "findings") (d /: "build.log")
    (Some started) (Some ended) (Some (-1)) None []
    (Some (d /: "target" /: "surefire-reports")).

Inductive drain_result :=
  | Drained (results : gmap string JobResult)
      (logs : gmap string (list string)) (n : nat)
  | Escapes (e : exn)     (* an exception leaves the loop *)
  | Stuck.                (* the loop never ends *)

Inductive main_result :=
  | Return (rc : Z) (out : option (gmap string JobResult * Report))
  | Propagate (e : exn)
  | Hang.

(** The state in which the job of [e] starts: its entry of the shared
    [results] dict, and its output directory as the world has it.  The ids
    of [execs] are all keys of [results], so the lookup cannot fail. *)
Definition job_start (args : Args) (W : world)
    (results : gmap string JobResult) (e : FuzzExecution) : jstate :=
  let id := execution_id e in
  let r := default (placeholder (args_out_dir args) e) (results !! id) in
  mkState r (job_dir0 W id) (work0 W id) (log0 W id) [] [status r] 0.

Section Scheduler.

Variable text_of_line : string -> string.

(** The body of [run_one] once the semaphore is held: [run_job] on the
    entry of the shared [results] dict. *)
Definition run_one (args : Args) (W : world)
    (results : gmap string JobResult) (e : FuzzExecution)
    : jstate * outcome unit :=
  run_job text_of_line (envs W (execution_id e)) (args_base_dir args)
    (args_mvn args) e (args_duration args) (os_environ W)
    (negb (args_no_batch args)) (args_rss_limit_mb args) (args_xmx_mb args)
    (job_start args W results e).

(** The [while tasks:] loop, one completed task at a time in the order
    of completion.  [tasks] maps the id of each pending task to the way
    it ends.  In the [except] clause, [res.log_path.open("a")] raises
    [FileNotFoundError] when the directory of the log does not exist, and
    what [faults] says when it does. *)
Fixpoint drain (execs : list FuzzExecution) (out_dir : Path)
    (started : Z) (clk : nat -> Z) (faults : string -> option string)
    (order : list string)
    (tasks : gmap string (jstate * outcome unit))
    (results : gmap string JobResult) (logs : gmap string (list string))
    (n : nat) : drain_result :=
  match order with
  | [] => if decide (tasks = ∅) then Drained results logs n else Stuck
  | k :: order' =>
      match tasks !! k with
      | None =>
          drain execs out_dir started clk faults order' tasks results logs n
      | Some (st, Ok _) =>
          if decide (k = "") then Stuck
          else drain execs out_dir started clk faults order' (delete k tasks)
                 (<[k := res st]> results)
                 (<[k := default [] (log st)]> logs) n
      | Some (st, Raise CancelledError) => Escapes CancelledError
      | Some (st, Raise (Exception what)) =>
          match find (fun ev => bool_decide (execution_id ev = k)) execs with
          | None => Stuck
          | Some e =>
              let r := failed_result out_dir e started (clk n) in
              if job_dir st then
                match faults k with
                | Some err => Escapes (Exception err)
                | None =>
                    if decide (k = "") then Stuck
                    else drain execs out_dir started clk faults order'
                           (delete k tasks) (<[k := r]> results)
                           (<[k := default [] (log st)
                                     ++ [nl +:+ "[Runner captured exception]"
                                           +:+ nl;
                                         what]]> logs)
                           (S n)
                end
              else Escapes (Exception "FileNotFoundError")
          end
      end
  end.

(** [tasks[e.execution_id] = asyncio.create_task(run_one(e))] for every
    execution; each task is recorded with the way it will end. *)
Definition initial_tasks (args : Args) (W : world)
    (results : gmap string JobResult) (execs : list FuzzExecution)
    : gmap string (jstate * outcome unit) :=
  foldl (fun m e => <[execution_id e := run_one args W results e]> m)
        ∅ execs.

Definition main_async (args : Args) (pom_execs : list FuzzExecution)
    (W : world) : main_result :=
  let execs := filter_executions pom_execs (args_filter args) in
  if args_list args then Return 0 None
  else
    match execs with
    | [] => Return 1 None
    | _ =>
        let results := initial_results (args_out_dir args) execs in
        (* [asyncio.Semaphore(n)] raises [ValueError] for a negative n *)
        if decide (args_jobs args < 0) then Propagate (Exception "ValueError")
        else
          let started := mclock W 0 in
          let tasks := initial_tasks args W results execs in
          (* with no permit at all, no task is ever admitted *)
          let order :=
            if decide (args_jobs args = 0) then [] else completion W in
          match drain execs (args_out_dir args) started (mclock W)
                  (note_fault W) order tasks results ∅ 1 with
          | Drained results' logs n =>
              let report :=
                make_report_json results' "lz4-java" (args_profile args)
                  (args_duration args) (args_jobs args) (args_mvn args)
                  (args_out_dir args) (args_base_dir args) (mclock W) n in
              (* [json_path.parent.mkdir], [html_path.parent.mkdir] and
                 the two [write_text] calls *)
              match report_fault W with
              | Some err => Propagate (Exception err)
              | None =>
                  let failed := count_status "failed" results' in
                  Return (if decide (failed = 0%nat) then 0 else 2)
                    (Some (results', report))
              end
          | Escapes e => Propagate e
          | Stuck => Hang
          end
    end.

End Scheduler.

(** [sys.exit(main(sys.argv[1:]))]: the exit code of the process; an
    exception that leaves [main_async] ends the interpreter with code 1. *)
Definition process_exit_code (r : main_result) : option Z :=
  match r with
  | Return rc _ => Some rc
  | Propagate _ => Some 1
  | Hang => None
  end.

Definition verdict_status (r : JobResult) : Prop :=
  status r = "passed" \/ status r = "failed".

(** A finished task, of the execution id [k], that the drain loop can
    turn into an entry: it returned, or it raised an [Exception] and its
    log can be appended to. *)
Definition drainable (faults : string -> option string) (k : string)
    (t : jstate * outcome unit) : Prop :=
  match t.2 with
  | Ok _ => True
  | Raise (Exception _) => job_dir t.1 = true /\ faults k = None
  | Raise CancelledError => False
  end.

(** ** The admission gate: [async with sem] around [run_job]

    Tasks are created for all executions at once and each first waits for a
    permit of [asyncio.Semaphore(args.jobs)].  Between two suspension points
    only one coroutine runs, so the run is an interleaving of the steps
    below; a permit is given back however [run_job] ends.  The semaphore
    serves its waiters first come, first served; the relation allows any
    waiter to be admitted, which only adds runs. *)

Module Gate.

Inductive phase :=
  | Waiting      (* at [async with sem], no permit yet *)
  | Preparing    (* in [run_job], up to the workspace copy *)
  | Compiling    (* in the first [stream_process] *)
  | RunPhase     (* in the second [stream_process] *)
  | Finished.    (* the task is done *)

Definition active (p : phase) : bool :=
  match p with
  | Preparing | Compiling | RunPhase => true
  | Waiting | Finished => false
  end.

Record sched := mkSched {
  permits : nat;             (* the semaphore's value *)
  phases : list phase        (* one per task, in submission order *)
}.

Definition count_active (s : sched) : nat :=
  length (filter (fun p => active p = true) (phases s)).

(** [asyncio.Semaphore(value)]: a negative value is refused. *)
Definition Semaphore (value : Z) : option nat :=
  if decide (value < 0) then None else Some (Z.to_nat value).

Definition init (ceiling : nat) (n : nat) : sched :=
  mkSched ceiling (replicate n Waiting).

(** [step_admit]: [sem.acquire()] succeeds only while the value is
    positive, and takes one permit.  [step_cancelled_waiting]: a task
    cancelled while it waits never held a permit.  [step_isolated] and
    [step_compiled]: [run_job] moves on, still holding its permit.
    [step_leave]: [run_job] returns or raises from any of its phases and
    [async with] gives the permit back. *)
Inductive step : sched -> sched -> Prop :=
  | step_admit s i n :
      phases s !! i = Some Waiting -> permits s = S n ->
      step s (mkSched n (<[i := Preparing]> (phases s)))
  | step_cancelled_waiting s i :
      phases s !! i = Some Waiting ->
      step s (mkSched (permits s) (<[i := Finished]> (phases s)))
  | step_isolated s i :
      phases s !! i = Some Preparing ->
      step s (mkSched (permits s) (<[i := Compiling]> (phases s)))
  | step_compiled s i :
      phases s !! i = Some Compiling ->
      step s (mkSched (permits s) (<[i := RunPhase]> (phases s)))
  | step_leave s i p :
      phases s !! i = Some p -> active p = true ->
      step s (mkSched (S (permits s)) (<[i := Finished]> (phases s))).

Definition weight (p : phase) : nat := if active p then 1%nat else 0%nat.

(** Permits in hand plus jobs in an active phase always make up the
    ceiling. *)
Definition balanced (ceiling : nat) (s : sched) : Prop :=
  (permits s + count_active s = ceiling)%nat.

(** Three jobs under a ceiling of two: the first two admitted, the first
    of them already compiling. *)
Definition two_of_three : sched :=
  mkSched 0 [Compiling; Preparing; Waiting].

End Gate.

(** ** Sample runs *)

Module Sample.

Definition decompress : FuzzExecution :=
  mkExec "fuzz-decompress" "net.jpountz.fuzz.LZ4DecompressorTest#safe_fast_array"
    "3.2.5" "fuzz".

Definition compress : FuzzExecution :=
  mkExec "fuzz-compress" "net.jpountz.fuzz.LZ4CompressorTest#roundtrip"
    "3.2.5" "fuzz".

Definition tick (n : nat) : Z := 1000 + Z.of_nat n.

(** A checkout with a crash file left at its root by an earlier run. *)
Definition checkout : list entry :=
  [Dir ".git" [File "HEAD"]; File "crash-1f3a"; File "pom.xml";
   Dir "src" [File "Main.java"]].

(** [n] distinct output lines. *)
Definition numbered (n : nat) : list string :=
  map (fun i => string_repeat "x" i +:+ nl) (seq 1 n).

(** Both phases exit with 0; the run phase prints ten lines. *)
Definition passes : job_env :=
  mkEnv checkout CopyDone (Spawned ["BUILD SUCCESS" +:+ nl] (Exit 0))
    (Spawned (numbered 10) (Exit 0)) tick.

(** The compile phase exits with 1. *)
Definition compile_fails : job_env :=
  mkEnv checkout CopyDone (Spawned ["COMPILATION ERROR" +:+ nl] (Exit 1))
    (Spawned (numbered 10) (Exit 0)) tick.

(** The task is cancelled while the run phase is streaming. *)
Definition cancelled_mid_run : job_env :=
  mkEnv checkout CopyDone (Spawned ["BUILD SUCCESS" +:+ nl] (Exit 0))
    (Spawned (numbered 3) (Abort CancelledError)) tick.

(** The copy breaks half-way: the destination exists, the copy is not
    complete. *)
Definition copy_breaks : job_env :=
  mkEnv checkout (CopyFailsDuring "shutil.Error" [File "pom.xml"])
    (Spawned [] (Exit 0)) (Spawned [] (Exit 0)) tick.

(** The destination cannot be created. *)
Definition cannot_create : job_env :=
  mkEnv checkout (CopyFailsBefore "PermissionError")
    (Spawned [] (Exit 0)) (Spawned [] (Exit 0)) tick.

(** The base directory cannot be read: [os.scandir] raises before the
    destination is created. *)
Definition unreadable_base : job_env :=
  mkEnv checkout (CopyFailsBefore "PermissionError")
    (Spawned [] (Exit 0)) (Spawned [] (Exit 0)) tick.

(** The compile phase exits with 0; the process of the run phase cannot
    be started. *)
Definition run_cannot_start : job_env :=
  mkEnv checkout CopyDone (Spawned ["BUILD SUCCESS" +:+ nl] (Exit 0))
    (SpawnFails (Exception "OSError")) tick.

(** The state of a job whose output directory does not exist yet. *)
Definition fresh (e : FuzzExecution) : jstate :=
  mkState (placeholder ["repo"; "fuzz-out"] e) false None None []
    ["queued"] 0.

(** The state of a job whose output directory is left from an earlier
    run, with its work tree and its log. *)
Definition left_over (e : FuzzExecution) : jstate :=
  mkState (placeholder ["repo"; "fuzz-out"] e) true
    (Some [File "pom.xml"; Dir "target" [File "classes"]])
    (Some ["BUILD FAILURE" +:+ nl]) [] ["failed"] 0.

Definition run (w : job_env) : jstate * outcome unit :=
  run_job (fun line => line) w ["repo"] "./mvnw" decompress "5s" ∅ true
    1024 700 (fresh decompress).

(** Two executions, two at a time; [fuzz-compress] completes first. *)
Definition args : Args :=
  mkArgs ["repo"] ["repo"; "fuzz-out"] "./mvnw" "fuzz" 2 "5s" None false
    false 1024 700.

Definition execs : list FuzzExecution := [decompress; compress].

(** The world in which the job of [fuzz-decompress] meets [w] and the
    other job passes; no output directory exists beforehand. *)
Definition world_with (w : job_env) : world :=
  mkWorld
    (fun id => if decide (id = "fuzz-decompress") then w else passes)
    (fun _ => false) (fun _ => None) (fun _ => None) ∅ tick
    ["fuzz-compress"; "fuzz-decompress"] (fun _ => None) None.

Definition main (w : job_env) : main_result :=
  main_async (fun line => line) args execs (world_with w).

(** The job of [e] in that world, as [main] starts it. *)
Definition job (w : job_env) (e : FuzzExecution) : jstate * outcome unit :=
  run_one (fun line => line) args (world_with w)
    (initial_results (args_out_dir args) execs) e.


End Sample.

(** ** The claims that the code does not meet, as the specification words
    them *)


(** C8 as stated: no name that an exclusion pattern covers is left anywhere
    in the copy. *)
Definition copy_excludes_all (src : Path) (t : list entry) : Prop :=
  forall n, n ∈ tree_names (copytree _ignore src t) -> excluded_name n = false.


(** ** Discovery: [read_pom_executions]

    The argument [root] is the root element that
    [ET.parse(str(pom_path)).getroot()] returns; [pom_path] stands for
    [str(pom_path)].  An element is its qualified tag, its text ([None] and the
    empty string are not told apart: [findtext] returns the empty string
    for both) and its children in document order. *)

#[warnings="-register-all"] Inductive xml :=
  | Elem (tag : string) (text : string) (children : list xml).

Definition xml_tag (x : xml) : string := match x with Elem t _ _ => t end.
Definition xml_text (x : xml) : string := match x with Elem _ t _ => t end.
Definition xml_children (x : xml) : list xml :=
  match x with Elem _ _ cs => cs end.

Definition POM_NS : string := "http://maven.apache.org/POM/4.0.0".

(** The tag that the step [m:local] of a path stands for. *)
Definition qname (local : string) : string := "{" +:+ POM_NS +:+ "}" +:+ local.

(** [el.findall("m:a/m:b/...", POM_NS)]: step by step, the children with
    the tag of the step, in document order. *)
Fixpoint findall (path : list string) (from : list xml) : list xml :=
  match path with
  | [] => from
  | step :: rest =>
      findall rest
        (from ≫= fun el =>
           filter (fun c => xml_tag c = qname step) (xml_children el))
  end.

(** [el.findtext(path, default=..., namespaces=POM_NS)]: the text of the
    first match, the default when there is none. *)
Definition findtext (path : list string) (default : string) (el : xml)
    : string :=
  match findall path [el] with
  | [] => default
  | x :: _ => xml_text x
  end.

(** The version kept by the loop over the plugins: that of the last
    surefire plugin that states one. *)
Definition stated_version (surefire_nodes : list xml) : option string :=
  foldl (fun acc plugin =>
           let v := findtext ["version"] "" plugin in
           if decide (v = "") then acc else Some v)
        None surefire_nodes.

Definition declared_execution (version profile_id : string) (exec_node : xml)
    : option FuzzExecution :=
  let exec_id := findtext ["id"] "" exec_node in
  let test := findtext ["configuration"; "test"] "" exec_node in
  if decide (exec_id <> "" /\ test <> "")
  then Some (mkExec exec_id test version profile_id)
  else None.

(** The first profile whose [<id>] is the requested one. *)
Definition find_profile (root : xml) (profile_id : string) : option xml :=
  find (fun p => bool_decide (findtext ["id"] "" p = profile_id))
       (findall ["profiles"; "profile"] [root]).

(** The surefire plugins of a profile, in document order. *)
Definition surefire_plugins (profile_node : xml) : list xml :=
  filter (fun plugin =>
            findtext ["artifactId"] "" plugin = "maven-surefire-plugin")
         (findall ["build"; "plugins"; "plugin"] [profile_node]).

Definition read_pom_executions (pom_path : string) (root : xml)
    (profile_id : string) : outcome (list FuzzExecution) :=
  match find_profile root profile_id with
  | None =>
      Raise (Exception ("Profile '" +:+ profile_id +:+ "' not found in "
                          +:+ pom_path))
  | Some profile_node =>
      let surefire_nodes := surefire_plugins profile_node in
      match surefire_nodes with
      | [] =>
          Raise (Exception "No maven-surefire-plugin found in fuzz profile")
      | _ =>
          let version := default "3.2.5" (stated_version surefire_nodes) in
          let executions :=
            surefire_nodes ≫= fun sn =>
              omap (declared_execution version profile_id)
                   (findall ["executions"; "execution"] [sn]) in
          match executions with
          | [] =>
              Raise (Exception
                       "No fuzz executions with <test> found in fuzz profile")
          | _ => Ok executions
          end
      end
  end.

(** ** The live summary: one refresh of [status_printer] *)

(** [summarize()]: total, passed, failed, running. *)
Definition summarize (results : gmap string JobResult)
    : nat * nat * nat * nat :=
  (size results, count_status "passed" results,
   count_status "failed" results, count_status "running" results).

(** The sort key [kv[1].start_time or 0.0]. *)
Definition start_key (kr : string * JobResult) : Z :=
  default 0 (start_time kr.2).

(** [sorted(rows, key=...)]: ascending keys, and rows with equal keys in
    the order in which they came (the sort is stable), which determines
    the result. *)
Fixpoint insert_row (x : string * JobResult) (l : list (string * JobResult))
    : list (string * JobResult) :=
  match l with
  | [] => [x]
  | y :: l' =>
      if decide (start_key x <= start_key y) then x :: l
      else y :: insert_row x l'
  end.

Definition sorted_rows (l : list (string * JobResult))
    : list (string * JobResult) :=
  foldr insert_row [] l.

(** The rows shown under the summary line: the running jobs by start
    time, at most five of them.  [items] is [results.items()], in the
    order of the dict. *)
Definition running_rows (items : list (string * JobResult))
    : list (string * JobResult) :=
  take 5 (sorted_rows (filter (fun kr => status kr.2 = "running") items)).

(** [" | ".join(r.last_lines[-1:]) if r.last_lines else ""] *)
Definition row_tail (r : JobResult) : string :=
  default "" (last (last_lines r)).

(** ** Vocabulary for further statements *)

(** The fields of a [JobResult] that identify the job and its files. *)
Definition same_identity (st st' : jstate) : Prop :=
  execution (res st') = execution (res st)
  /\ findings_dir (res st') = findings_dir (res st)
  /\ log_path (res st') = log_path (res st).

(** The workspace copy is there: it was there before, or the copy
    succeeds. *)
Definition isolation_ok (w : job_env) (st : jstate) : bool :=
  match work st, copy_result w with
  | Some _, _ | None, CopyDone => true
  | None, _ => false
  end.

(** What the [except] clauses of the run phase append to the log. *)
Definition fault_note (e : exn) : list string :=
  match e with
  | CancelledError => [nl +:+ nl +:+ "[Cancelled]" +:+ nl]
  | Exception what => [nl +:+ nl +:+ "[Runner Exception]" +:+ nl; what]
  end.

(** The process invocations, the log file and the work tree that a run of
    [run_job] leaves, read off the behaviour that the job meets; [c1] and
    [c2] are the invocations of the compile and of the run phase. *)
Definition expected_invoked (w : job_env)
    (c1 c2 : list string * Path * gmap string string) (st : jstate)
    : list (list string * Path * gmap string string) :=
  if isolation_ok w st then
    match compile_proc w with
    | Spawned _ (Exit code) => if decide (code = 0) then [c1; c2] else [c1]
    | _ => [c1]
    end
  else [].

Definition expected_log (w : job_env) (st : jstate) : option (list string) :=
  if isolation_ok w st then
    match compile_proc w with
    | SpawnFails _ => log st
    | Spawned l1 (Abort _) => Some (upto_eof l1)
    | Spawned l1 (Exit code) =>
        if decide (code = 0) then
          match run_proc w with
          | SpawnFails e => Some (upto_eof l1 ++ fault_note e)
          | Spawned l2 (Abort e) => Some (upto_eof l2 ++ fault_note e)
          | Spawned l2 (Exit _) => Some (upto_eof l2)
          end
        else Some (upto_eof l1)
    end
  else log st.

Definition expected_work (w : job_env) (base_dir : Path) (st : jstate)
    : option (list entry) :=
  match work st with
  | Some t => Some t
  | None =>
      match copy_result w with
      | CopyDone => Some (copytree _ignore base_dir (base_tree w))
      | CopyFailsBefore _ => None
      | CopyFailsDuring _ partial => Some partial
      end
  end.

(** [s] contains [pat]: it is [pat] between two strings. *)
Definition has_substring (pat s : string) : Prop :=
  exists pre post, s = pre +:+ pat +:+ post.

Module SamplePom.

Definition el (name text : string) (children : list xml) : xml :=
  Elem (qname name) text children.

Definition execution_node (id test : string) : xml :=
  el "execution" ""
    [el "id" id []; el "configuration" "" [el "test" test []]].

Definition surefire : xml :=
  el "plugin" ""
    [el "groupId" "org.apache.maven.plugins" [];
     el "artifactId" "maven-surefire-plugin" [];
     el "executions" ""
       [execution_node "fuzz-decompress"
          "net.jpountz.fuzz.LZ4DecompressorTest#safe_fast_array";
        el "execution" "" [el "id" "default-test" []];
        execution_node "fuzz-compress"
          "net.jpountz.fuzz.LZ4CompressorTest#roundtrip"]].

Definition pom : xml :=
  el "project" ""
    [el "artifactId" "lz4-java" [];
     el "profiles" ""
       [el "profile" "" [el "id" "release" []];
        el "profile" ""
          [el "id" "fuzz" [];
           el "build" "" [el "plugins" "" [surefire]]]]].

(** The same profile with a second surefire plugin, which states a
    version and declares no execution. *)
Definition second_surefire : xml :=
  el "plugin" ""
    [el "artifactId" "maven-surefire-plugin" []; el "version" "3.5.2" []].

Definition versioned : xml :=
  el "project" ""
    [el "profiles" ""
       [el "profile" ""
          [el "id" "fuzz" [];
           el "build" "" [el "plugins" "" [surefire; second_surefire]]]]].

End SamplePom.

(** * Properties *)

(** ** Path sanitising *)

Example sha1_abc :
  Sha1.hexdigest "abc" = "a9993e364706816aba3e25717850c26c9cd0d89d".
Proof. vm_compute. reflexivity. Qed.

Example sha1_two_blocks :
  Sha1.hexdigest "abcdbcdecdefdefgefghfghighijhijkijkljklmklmnlmnomnopnopq" =
  "84983e441c3bd26ebaae4aa1f95129e5e54670f1".
Proof. vm_compute. reflexivity. Qed.

Example sanitize_plain :
  sanitize_for_path "LZ4DecompressorTest#native fast/array" =
  "LZ4DecompressorTest_native_fast_array".
Proof. reflexivity. Qed.

Example sanitize_long :
  sanitize_for_path (string_repeat "a" 151) =
  string_repeat "a" 120 +:+ "_0b6def5d".
Proof. vm_compute. reflexivity. Qed.

Lemma string_length_app (a b : string) :
  String.length (a +:+ b) = (String.length a + String.length b)%nat.
Proof. induction a as [|c a IH]; simpl; [reflexivity | now rewrite IH]. Qed.

Lemma string_forallb_app p (a b : string) :
  string_forallb p (a +:+ b) = string_forallb p a && string_forallb p b.
Proof.
  induction a as [|c a IH]; simpl; [reflexivity|].
  rewrite IH. now rewrite andb_assoc.
Qed.

Lemma string_forallb_substring p (s : string) : forall n m,
  string_forallb p s = true ->
  string_forallb p (String.substring n m s) = true.
Proof.
  induction s as [|c s IH]; intros n m Hs.
  - destruct n, m; reflexivity.
  - simpl in Hs. apply andb_prop in Hs as [Hc Hs].
    destruct n as [|n]; simpl.
    + destruct m as [|m]; simpl; [reflexivity|].
      rewrite Hc. simpl. now apply IH.
    + now apply IH.
Qed.

Lemma string_length_substring (s : string) : forall n m,
  (n + m <= String.length s)%nat ->
  String.length (String.substring n m s) = m.
Proof.
  induction s as [|c s IH]; intros n m Hle; simpl in Hle.
  - assert (n = 0%nat /\ m = 0%nat) as [-> ->] by lia. reflexivity.
  - destruct n as [|n]; simpl.
    + destruct m as [|m]; simpl; [reflexivity|].
      f_equal. apply IH. lia.
    + apply IH. lia.
Qed.

Lemma re_sub_unsafe_safe (s : string) : forall in_run,
  string_forallb is_safe_char (re_sub_unsafe in_run s) = true.
Proof.
  induction s as [|c s IH]; intros in_run; simpl; [reflexivity|].
  destruct (is_safe_char c) eqn:Hc; simpl.
  - now rewrite Hc, IH.
  - destruct in_run; simpl; now rewrite ?IH.
Qed.

Lemma hex_digit_safe (x : Z) : is_safe_char (Sha1.hex_digit x) = true.
Proof.
  unfold Sha1.hex_digit.
  destruct (x mod 16) as [|p|p]; try reflexivity.
  do 4 (destruct p as [p|p|]; try reflexivity).
Qed.

Lemma hex_word_safe (n : nat) (x : Z) :
  string_forallb is_safe_char (Sha1.hex_word n x) = true.
Proof.
  induction n as [|n IH]; simpl; [reflexivity|].
  now rewrite hex_digit_safe, IH.
Qed.

Lemma hex_word_length (n : nat) (x : Z) :
  String.length (Sha1.hex_word n x) = n.
Proof. induction n as [|n IH]; simpl; [reflexivity | now rewrite IH]. Qed.

Lemma hexdigest_safe (s : string) :
  string_forallb is_safe_char (Sha1.hexdigest s) = true.
Proof.
  unfold Sha1.hexdigest.
  destruct (Sha1.digest _) as [[[[h0 h1] h2] h3] h4].
  now rewrite !string_forallb_app, !hex_word_safe.
Qed.

Lemma hexdigest_length (s : string) :
  String.length (Sha1.hexdigest s) = 40%nat.
Proof.
  unfold Sha1.hexdigest.
  destruct (Sha1.digest _) as [[[[h0 h1] h2] h3] h4].
  now rewrite !string_length_app, !hex_word_length.
Qed.

Lemma string_repeat_length c n : String.length (string_repeat c n) = n.
Proof. induction n as [|n IH]; simpl; [reflexivity | now rewrite IH]. Qed.

Lemma re_sub_unsafe_id (s : string) : forall in_run,
  string_forallb is_safe_char s = true -> re_sub_unsafe in_run s = s.
Proof.
  induction s as [|c s IH]; intros in_run Hs; simpl in *; [reflexivity|].
  apply andb_prop in Hs as [Hc Hs]. rewrite Hc. f_equal. now apply IH.
Qed.

(** Names that are already safe and at most 150 characters long are kept as
    they are. *)
Lemma sanitize_for_path_id (s : string) :
  string_forallb is_safe_char s = true -> (String.length s <= 150)%nat ->
  sanitize_for_path s = s.
Proof.
  intros Hs Hlen. unfold sanitize_for_path.
  rewrite (re_sub_unsafe_id _ _ Hs).
  destruct (Nat.ltb_spec 150 (String.length s)); [lia | reflexivity].
Qed.

(** C10, as stated, fails: a safe name of 150 characters is returned
    unchanged, so the result can be longer than 129. *)
Lemma sanitize_for_path_exceeds_129 :
  ~ sanitize_claim (string_repeat "a" 150).
Proof.
  unfold sanitize_claim. intros [_ Hlen].
  rewrite sanitize_for_path_id in Hlen.
  - rewrite string_repeat_length in Hlen. lia.
  - vm_compute. reflexivity.
  - rewrite string_repeat_length. lia.
Qed.

(** C10 (amended): for every input string [s], [sanitize_for_path s]
    contains only characters of [A-Za-z0-9._-] and its length is at most
    150; it is exactly 129 whenever the substituted string was longer than
    150 and had to be shortened.  (Being a function of [s] alone, the
    result is the same for equal inputs.) *)
Theorem sanitize_for_path_wellformed (s : string) :
  string_forallb is_safe_char (sanitize_for_path s) = true
  /\ (String.length (sanitize_for_path s) <= 150)%nat
  /\ ((150 < String.length (re_sub_unsafe false s))%nat ->
      String.length (sanitize_for_path s) = 129%nat).
Proof.
  unfold sanitize_for_path.
  destruct (Nat.ltb_spec 150 (String.length (re_sub_unsafe false s)))
    as [Hlong|Hshort].
  - assert (String.length
              (String.substring 0 120 (re_sub_unsafe false s) +:+ "_" +:+
               String.substring 0 8 (Sha1.hexdigest (re_sub_unsafe false s)))
            = 129%nat) as Hlen.
    { rewrite !string_length_app, !string_length_substring; simpl; try lia.
      rewrite hexdigest_length. lia. }
    split; [|split]; [| lia | intros _; exact Hlen].
    rewrite !string_forallb_app.
    rewrite !string_forallb_substring;
      auto using re_sub_unsafe_safe, hexdigest_safe.
  - split; [|split]; [apply re_sub_unsafe_safe | lia | lia].
Qed.

(** ** The report builder *)

Lemma length_filter_fmap {A B} (f : A -> B) (P : B -> Prop)
    `{!forall b, Decision (P b)} (l : list A) :
  length (filter P (f <$> l)) = length (filter (fun a => P (f a)) l).
Proof.
  induction l as [|a l IH]; [reflexivity|].
  rewrite fmap_cons, !filter_cons. destruct (decide (P (f a))); simpl; lia.
Qed.

Lemma count_status_sorted (v : string) (base : Path)
    (results : gmap string JobResult) :
  length (filter (fun t => t_status t = v)
            (map (fun kr => test_entry base kr.2) (sorted_items results)))
  = count_status v results.
Proof.
  unfold count_status, sorted_items.
  change (map ?f ?l) with (f <$> l).
  rewrite (length_filter_fmap (fun kr => test_entry base kr.2)
             (fun t => t_status t = v)).
  simpl. now rewrite merge_sort_Permutation.
Qed.

Lemma make_report_json_summary results project profile duration concurrency
    mvn_cmd out_dir base_dir clk n :
  let rep := make_report_json results project profile duration concurrency
               mvn_cmd out_dir base_dir clk n in
  total (summary rep) = size results
  /\ passed (summary rep) = count_status "passed" results
  /\ failed (summary rep) = count_status "failed" results
  /\ cancelled (summary rep) = count_status "cancelled" results
  /\ tests rep = map (fun kr => test_entry base_dir kr.2) (sorted_items results)
  /\ duration_seconds (summary rep) =
       (if decide (size results = 0%nat) then 0
        else duration_seconds (summary rep)).
Proof.
  unfold make_report_json.
  destruct (match (map_to_list results).*2 with [] => _ | _ => _ end)
    as [start_ts n1].
  destruct (match (map_to_list results).*2 with [] => _ | _ => _ end)
    as [end_ts n2].
  simpl. repeat split. now destruct (decide (size results = 0%nat)).
Qed.

(** C6: for every result set, of any size, the summary counters of the
    report are the aggregates of its own per-job entries: [total] is the
    number of entries, and [passed], [failed] and [cancelled] count the
    entries with that status; for the empty result set the report is built
    all the same, with every counter and the duration equal to zero and no
    entry. *)
Theorem report_counters_are_aggregates (results : gmap string JobResult)
    (project profile duration : string) (concurrency : Z) (mvn_cmd : string)
    (out_dir base_dir : Path) (clk : nat -> Z) (n : nat) :
  let rep := make_report_json results project profile duration concurrency
               mvn_cmd out_dir base_dir clk n in
  let count v := length (filter (fun t => t_status t = v) (tests rep)) in
  total (summary rep) = length (tests rep)
  /\ passed (summary rep) = count "passed"
  /\ failed (summary rep) = count "failed"
  /\ cancelled (summary rep) = count "cancelled"
  /\ summary (make_report_json ∅ project profile duration concurrency
                mvn_cmd out_dir base_dir clk n) = mkSummary 0 0 0 0 0
  /\ tests (make_report_json ∅ project profile duration concurrency
              mvn_cmd out_dir base_dir clk n) = [].
Proof.
  intros rep count.
  destruct (make_report_json_summary results project profile duration
              concurrency mvn_cmd out_dir base_dir clk n)
    as (Ht & Hp & Hf & Hc & Htests & _).
  fold rep in Ht, Hp, Hf, Hc, Htests.
  subst count. rewrite Ht, Hp, Hf, Hc, Htests.
  rewrite !count_status_sorted.
  repeat split.
  unfold sorted_items.
  now rewrite length_map, merge_sort_Permutation, length_map_to_list.
Qed.

(** ** The admission gate *)

Module GateFacts.
Import Gate.

Lemma active_insert (ps : list phase) : forall i p q,
  ps !! i = Some p ->
  (length (filter (fun x => active x = true) (<[i := q]> ps)) + weight p
   = length (filter (fun x => active x = true) ps) + weight q)%nat.
Proof.
  induction ps as [|x ps IH]; intros i p q Hi; [discriminate|].
  destruct i as [|i]; simpl in Hi.
  - simplify_eq/=. rewrite !filter_cons. unfold weight.
    destruct (active p), (active q); simpl;
      repeat case_decide; simpl; try congruence; lia.
  - simpl. rewrite !filter_cons.
    specialize (IH i p q Hi).
    destruct (decide (active x = true)); simpl; lia.
Qed.

Lemma balanced_init ceiling n : balanced ceiling (init ceiling n).
Proof.
  unfold balanced, init, count_active. simpl.
  induction n as [|n IH]; simpl; [lia|].
  rewrite filter_cons_False by (simpl; discriminate). exact IH.
Qed.

Lemma balanced_step ceiling s s' :
  balanced ceiling s -> step s s' -> balanced ceiling s'.
Proof.
  unfold balanced, count_active. intros Hb Hstep.
  destruct Hstep as [s i n Hi Hp | s i Hi | s i Hi | s i Hi | s i p Hi Hact];
    simpl.
  - pose proof (active_insert _ _ _ Preparing Hi) as H.
    unfold weight in H; simpl in H. lia.
  - pose proof (active_insert _ _ _ Finished Hi) as H.
    unfold weight in H; simpl in H. lia.
  - pose proof (active_insert _ _ _ Compiling Hi) as H.
    unfold weight in H; simpl in H. lia.
  - pose proof (active_insert _ _ _ RunPhase Hi) as H.
    unfold weight in H; simpl in H. lia.
  - pose proof (active_insert _ _ _ Finished Hi) as H.
    unfold weight in H; rewrite Hact in H; simpl in H. lia.
Qed.

Lemma balanced_reachable ceiling n s :
  rtc step (init ceiling n) s -> balanced ceiling s.
Proof.
  revert s. apply rtc_ind_r.
  - apply balanced_init.
  - intros s s' _ Hstep Hb. exact (balanced_step _ _ _ Hb Hstep).
Qed.

End GateFacts.

(** C9: in every state that a run can reach, through any interleaving of
    admissions, phase changes and completions, the number of jobs in an
    active phase (preparing, compiling or running, that is, neither
    waiting for a permit nor finished) is at most the configured
    concurrency ceiling [jobs]. *)
Theorem admission_ceiling_respected (jobs : Z) (ceiling n : nat)
    (s : Gate.sched) :
  Gate.Semaphore jobs = Some ceiling ->
  rtc Gate.step (Gate.init ceiling n) s ->
  Z.of_nat (Gate.count_active s) <= jobs.
Proof.
  intros Hsem Hrun.
  apply GateFacts.balanced_reachable in Hrun.
  unfold Gate.balanced in Hrun.
  unfold Gate.Semaphore in Hsem.
  destruct (decide (jobs < 0)); [discriminate|].
  injection Hsem as <-. lia.
Qed.

Lemma gate_two_of_three_reachable :
  rtc Gate.step (Gate.init 2 3) Gate.two_of_three.
Proof.
  eapply rtc_l; [apply (Gate.step_admit _ 0%nat 1%nat); reflexivity|].
  eapply rtc_l; [apply (Gate.step_admit _ 1%nat 0%nat); reflexivity|].
  eapply rtc_l; [apply (Gate.step_isolated _ 0%nat); reflexivity|].
  apply rtc_refl.
Defined.

Lemma admission_ceiling_respected_witness :
  Z.of_nat (Gate.count_active Gate.two_of_three) <= 2.
Proof.
  apply (admission_ceiling_respected 2 2 3 Gate.two_of_three).
  - reflexivity.
  - exact gate_two_of_three_reachable.
Defined.

(** ** One process: [stream_process] *)

Section RunnerFacts.

Variable text_of_line : string -> string.

Lemma with_last_lines_same (r : JobResult) :
  with_last_lines (last_lines r) r = r.
Proof. now destruct r. Qed.

Lemma upto_eof_nonempty (lines : list string) :
  Forall (fun l => l <> "") lines -> upto_eof lines = lines.
Proof.
  induction 1 as [|l ls Hl _ IH]; simpl; [reflexivity|].
  destruct (decide (l = "")); [contradiction | now rewrite IH].
Qed.

Lemma upto_eof_take (lines : list string) (k : nat) :
  Forall (fun l => l <> "") lines -> upto_eof (take k lines) = take k lines.
Proof. intros H. apply upto_eof_nonempty. now apply Forall_take. Qed.

(** The loop in closed form: what it has written, what it has kept, and
    that it touches nothing else. *)
Lemma read_loop_closed (lines : list string) : forall last st,
  read_loop text_of_line lines last st =
  let ls := upto_eof lines in
  let kept := tail_of last (map text_of_line ls) in
  (mkState
     (match ls with [] => res st | _ => with_last_lines kept (res st) end)
     (job_dir st) (work st)
     (match ls with [] => log st | _ => Some (default [] (log st) ++ ls) end)
     (invoked st) (history st) (ticks st),
   Ok kept).
Proof.
  induction lines as [|line rest IH]; intros last st; simpl.
  - now destruct st.
  - destruct (decide (line = "")) as [->|Hline]; simpl.
    + now destruct st.
    + unfold bind at 1. unfold write_log at 1. simpl.
      unfold bind at 1. unfold modify_res at 1. simpl.
      rewrite IH. simpl. unfold tail_of. simpl.
      destruct (upto_eof rest) as [|l ls]; simpl; [reflexivity|].
      now rewrite <- app_assoc.
Qed.

Lemma push_tail_closed (last : list string) (t : string) :
  (length last <= tail_max)%nat ->
  push_tail last t = drop (length (last ++ [t]) - tail_max) (last ++ [t])
  /\ (length (push_tail last t) <= tail_max)%nat.
Proof.
  intros Hlen. unfold push_tail.
  rewrite length_app. simpl length.
  destruct (Nat.ltb_spec tail_max (length last + 1)) as [Hfull|Hroom].
  - replace (length last + 1 - tail_max)%nat with 1%nat by lia.
    split; [reflexivity|]. rewrite length_drop, length_app. simpl. lia.
  - replace (length last + 1 - tail_max)%nat with 0%nat by lia.
    split; [reflexivity|]. rewrite length_app. simpl. lia.
Qed.

Lemma tail_of_closed (ts : list string) : forall last,
  (length last <= tail_max)%nat ->
  tail_of last ts = drop (length (last ++ ts) - tail_max) (last ++ ts).
Proof.
  unfold tail_of.
  induction ts as [|t ts IH]; intros last Hlen; simpl.
  - rewrite app_nil_r. now replace (length last - tail_max)%nat with 0%nat by lia.
  - destruct (push_tail_closed last t Hlen) as [Heq Hle].
    rewrite (IH _ Hle), Heq.
    rewrite <- drop_app_le by (rewrite length_app; simpl; lia).
    rewrite drop_drop, <- app_assoc. simpl.
    f_equal. rewrite length_drop, !length_app. simpl.
    unfold tail_max in *. lia.
Qed.

Lemma tail_of_length (ts last : list string) :
  (length last <= tail_max)%nat ->
  length (tail_of last ts) = Nat.min (length (last ++ ts)) tail_max.
Proof.
  intros Hlen. rewrite tail_of_closed by assumption.
  rewrite length_drop. lia.
Qed.

(** A process that could be spawned, in closed form. *)
Lemma stream_process_spawned clk cmd cwd env lines fin st :
  stream_process text_of_line clk cmd cwd env (Spawned lines fin) st =
  let ls := upto_eof lines in
  let r1 := with_status "running"
              (with_start_time (clk (ticks st)) (res st)) in
  let r2 := match ls with
            | [] => r1
            | _ => with_last_lines (tail_of [] (map text_of_line ls)) r1
            end in
  let called := invoked st ++ [(cmd, cwd, env)] in
  match fin with
  | Abort e =>
      (mkState r2 true (work st) (Some ls) called
         (history st ++ ["running"]) (S (ticks st)), Raise e)
  | Exit code =>
      let verdict := if decide (code = 0) then "passed" else "failed" in
      (mkState
         (with_status verdict
            (with_end_time (clk (S (ticks st))) (with_exit_code code r2)))
         true (work st) (Some ls) called
         (history st ++ ["running"; verdict]) (S (S (ticks st))), Ok tt)
  end.
Proof.
  unfold stream_process.
  unfold bind at 1. unfold note_invocation at 1.
  unfold bind at 1. unfold time_time at 1. cbn [res job_dir work log invoked history ticks].
  unfold bind at 1. unfold modify_res at 1. cbn [res job_dir work log invoked history ticks].
  unfold bind at 1. unfold set_status at 1. cbn [res job_dir work log invoked history ticks].
  unfold bind at 1. unfold mkdir_log_parent at 1. cbn [res job_dir work log invoked history ticks].
  unfold bind at 1. unfold open_wb at 1. cbn [res job_dir work log invoked history ticks].
  unfold bind at 1. rewrite read_loop_closed.
  cbn [res job_dir work log invoked history ticks default].
  destruct fin as [code|e].
  - unfold bind, modify_res, time_time, set_status.
    cbn [res job_dir work log invoked history ticks].
    rewrite <- app_assoc. simpl app.
    now destruct (upto_eof lines).
  - unfold raise. now destruct (upto_eof lines).
Qed.

(** Reading a prefix and then the rest is reading the whole: the loop
    run on [take k lines] is the loop on [lines] after [k] iterations. *)
Lemma read_loop_prefix (l1 l2 : list string) : forall last st,
  Forall (fun l => l <> "") l1 ->
  read_loop text_of_line (l1 ++ l2) last st =
  read_loop text_of_line l2 (tail_of last (map text_of_line l1))
    (read_loop text_of_line l1 last st).1.
Proof.
  induction l1 as [|l l1 IH]; intros last st Hne; simpl.
  - reflexivity.
  - apply Forall_cons in Hne as [Hl Hne].
    destruct (decide (l = "")); [contradiction|].
    unfold bind, write_log, modify_res. simpl.
    now rewrite IH.
Qed.

Lemma kept_lines (lines : list string) :
  tail_of [] (map text_of_line lines)
  = map text_of_line (drop (length lines - tail_max) lines).
Proof.
  rewrite tail_of_closed by (simpl; lia). simpl.
  now rewrite length_map, skipn_map.
Qed.

(** C7: for a process that emits the [N] lines [lines], with the ring
    buffer capacity [tail_max] = 8: after any number [k] of lines read the
    buffer holds the last [min k 8] of them in their order (so never more
    than 8) and the job's [last_lines] shows the same; after completion
    the buffer holds exactly the last [min N 8] lines in their original
    order, and the log file holds all [N] lines. *)
Theorem ring_buffer_keeps_last_lines (lines : list string)
    (clk : nat -> Z) (cmd : list string) (cwd : Path)
    (env : gmap string string) (code : Z) (st st0 : jstate) :
  Forall (fun l => l <> "") lines ->
  let N := length lines in
  let kept := map text_of_line (drop (N - 8) lines) in
  let finished :=
    stream_process text_of_line clk cmd cwd env (Spawned lines (Exit code))
      st in
  (forall k, (k <= N)%nat ->
     let now := read_loop text_of_line (take k lines) [] st0 in
     let tail_k := map text_of_line (drop (k - 8) (take k lines)) in
     now.2 = Ok tail_k
     /\ length tail_k = Nat.min k 8
     /\ ((0 < k)%nat -> last_lines (res now.1) = tail_k))
  /\ (read_loop text_of_line lines [] st0).2 = Ok kept
  /\ length kept = Nat.min N 8
  /\ finished.2 = Ok tt
  /\ ((0 < N)%nat -> last_lines (res finished.1) = kept)
  /\ log finished.1 = Some lines.
Proof.
  intros Hne N kept finished.
  assert (Hlen : forall ls : list string,
             length (map text_of_line (drop (length ls - 8) ls))
             = Nat.min (length ls) 8).
  { intros ls. rewrite length_map, length_drop. lia. }
  split; [|split; [|split; [|split; [|split]]]].
  - intros k Hk now tail_k. subst now tail_k.
    rewrite read_loop_closed, upto_eof_take by assumption. simpl.
    assert (Hk' : length (take k lines) = k) by (rewrite length_take; lia).
    pose proof (kept_lines (take k lines)) as Hkept.
    rewrite Hk' in Hkept. unfold tail_max in Hkept.
    split; [now rewrite Hkept|]. split.
    + rewrite length_map, length_drop, Hk'. lia.
    + intros Hpos. destruct (take k lines) eqn:Htake.
      * simpl in Hk'. lia.
      * simpl. now rewrite <- Hkept.
  - rewrite read_loop_closed, upto_eof_nonempty by assumption. simpl.
    now rewrite kept_lines.
  - apply Hlen.
  - subst finished. now rewrite stream_process_spawned.
  - intros Hpos. subst finished kept.
    rewrite stream_process_spawned, upto_eof_nonempty by assumption.
    simpl. destruct lines as [|l ls] eqn:Hlines; [simpl in *; lia|].
    rewrite <- Hlines, kept_lines. subst N. now rewrite Hlines.
  - subst finished.
    rewrite stream_process_spawned, upto_eof_nonempty by assumption.
    reflexivity.
Qed.

Lemma stream_process_unspawned clk cmd cwd env e st :
  stream_process text_of_line clk cmd cwd env (SpawnFails e) st =
  (mkState (res st) (job_dir st) (work st) (log st)
     (invoked st ++ [(cmd, cwd, env)]) (history st) (ticks st), Raise e).
Proof. reflexivity. Qed.

End RunnerFacts.

(** ** One job: [run_job] *)

Ltac job_fields :=
  cbn [res job_dir work log invoked history ticks fst snd
       status execution build_dir findings_dir log_path start_time end_time
       exit_code command last_lines surefire_report_dir
       with_status with_build_dir with_start_time with_end_time
       with_exit_code with_command with_last_lines with_surefire_report_dir].

Section JobFacts.

Variable text_of_line : string -> string.

Lemma bind_eq {A B} (m : M A) (k : A -> M B) (st : jstate) :
  bind m k st =
  match m st with
  | (st', Ok a) => k a st'
  | (st', Raise e) => (st', Raise e)
  end.
Proof. reflexivity. Qed.

(** What [stream_process] changes, seen through the fields that the job
    driver looks at. *)
Lemma stream_process_obs clk cmd cwd env p st :
  let r := stream_process text_of_line clk cmd cwd env p st in
  invoked r.1 = invoked st ++ [(cmd, cwd, env)]
  /\ build_dir (res r.1) = build_dir (res st)
  /\ match p with
     | SpawnFails e =>
         r.2 = Raise e /\ history r.1 = history st
         /\ status (res r.1) = status (res st)
         /\ exit_code (res r.1) = exit_code (res st)
         /\ job_dir r.1 = job_dir st
     | Spawned _ (Abort e) =>
         r.2 = Raise e /\ history r.1 = history st ++ ["running"]
         /\ status (res r.1) = "running"
         /\ exit_code (res r.1) = exit_code (res st)
         /\ job_dir r.1 = true
     | Spawned _ (Exit code) =>
         r.2 = Ok tt /\ history r.1 = history st ++ ["running"; verdict code]
         /\ status (res r.1) = verdict code
         /\ exit_code (res r.1) = Some code
         /\ job_dir r.1 = true
     end.
Proof.
  destruct p as [e | lines [code | e]]; cbv zeta.
  - rewrite stream_process_unspawned. job_fields. repeat split.
  - rewrite stream_process_spawned. cbv zeta. job_fields.
    unfold verdict. repeat split; now destruct (upto_eof lines).
  - rewrite stream_process_spawned. cbv zeta. job_fields.
    repeat split; now destruct (upto_eof lines).
Qed.

(** The [except] clauses, entered with the log directory in place. *)
Lemma on_run_fault_obs clk e st :
  job_dir st = true ->
  let r := on_run_fault clk e st in
  invoked r.1 = invoked st /\ exit_code (res r.1) = exit_code (res st)
  /\ job_dir r.1 = true
  /\ match e with
     | Exception _ =>
         r.2 = Ok tt /\ history r.1 = history st ++ ["failed"]
         /\ status (res r.1) = "failed"
     | CancelledError =>
         r.2 = Raise CancelledError
         /\ history r.1 = history st ++ ["cancelled"]
         /\ status (res r.1) = "cancelled"
     end.
Proof.
  intros Hdir. destruct e as [what|]; cbv zeta;
    unfold on_run_fault, bind, set_status, time_time, modify_res,
      append_log, write_log, raise;
    job_fields; rewrite Hdir; job_fields; repeat split.
Qed.


Lemma bind_set_status {B} v (k : unit -> M B) st :
  bind (set_status v) k st =
  k tt (mkState (with_status v (res st)) (job_dir st) (work st) (log st)
          (invoked st) (history st ++ [v]) (ticks st)).
Proof. reflexivity. Qed.

Lemma bind_modify_res {B} f (k : unit -> M B) st :
  bind (modify_res f) k st =
  k tt (mkState (f (res st)) (job_dir st) (work st) (log st)
          (invoked st) (history st) (ticks st)).
Proof. reflexivity. Qed.

Lemma bind_get_res {B} (k : JobResult -> M B) st :
  bind get_res k st = k (res st) st.
Proof. reflexivity. Qed.

(** Symbolic execution inside a hypothesis [run_job ... st = (fin, out)]:
    one primitive step; or one [stream_process] call, whose final state
    and outcome get names and whose effect is recorded as [H]. *)
Ltac job_fields_in Hrun :=
  cbn [res job_dir work log invoked history ticks fst snd
       status execution build_dir findings_dir log_path start_time end_time
       exit_code command last_lines surefire_report_dir
       with_status with_build_dir with_start_time with_end_time
       with_exit_code with_command with_last_lines
       with_surefire_report_dir] in Hrun.

Ltac job_step Hrun :=
  first [ rewrite bind_set_status in Hrun | rewrite bind_modify_res in Hrun
        | rewrite bind_get_res in Hrun ];
  job_fields_in Hrun.

Ltac job_stream Hrun H :=
  match type of Hrun with
  | context [stream_process ?t ?clk ?cmd ?cwd ?env ?p ?s] =>
      pose proof (stream_process_obs clk cmd cwd env p s) as H;
      cbv zeta in H;
      let r := fresh "r" in
      let E := fresh "E" in
      remember (stream_process t clk cmd cwd env p s) as r eqn:E in *;
      clear E; destruct r as [? ?];
      job_fields_in H; job_fields_in Hrun
  end.

(** Replace the observed fields of later states by what is known of
    them, back to the initial state. *)
Ltac job_rewrite :=
  repeat match goal with
    | H : history ?x = _ |- context [history ?x] => rewrite H
    | H : invoked ?x = _ |- context [invoked ?x] => rewrite H
    | H : status (res ?x) = _ |- context [status (res ?x)] => rewrite H
    | H : exit_code (res ?x) = _ |- context [exit_code (res ?x)] => rewrite H
    | H : job_dir ?x = _ |- context [job_dir ?x] => rewrite H
    end.

Ltac job_close Hrun :=
  injection Hrun as <- <-; unfold commands; job_rewrite;
  unfold verdict; repeat case_decide; simplify_eq;
  cbn [f_outcome f_assigned f_launched f_status f_exit_code f_job_dir];
  rewrite <- ?app_assoc, ?map_app; cbn [app map fst snd];
  rewrite <- ?app_assoc; cbn [app]; rewrite ?app_nil_r;
  repeat split.

(** From the compile phase to the end. *)
Ltac job_rest Hrun w :=
  let Hc := fresh "Hc" in
  let Hr := fresh "Hr" in
  let Hf := fresh "Hf" in
  rewrite bind_eq in Hrun; job_stream Hrun Hc;
  destruct (compile_proc w) as [? | ? [code | ?]];
  destruct_and!; subst;
  [ job_close Hrun
  | job_step Hrun;
    match goal with
    | H : exit_code (res ?x) = _ |- _ => rewrite H in Hrun
    end;
    destruct (decide (Some code = Some 0)) as [Hzero | Hnonzero];
    [ injection Hzero as ->;
      do 2 job_step Hrun; unfold try_except in Hrun;
      job_stream Hrun Hr;
      destruct (run_proc w) as [? | ? [? | ?]];
      destruct_and!; subst;
      [ | job_close Hrun | ];
      match type of Hrun with
      | on_run_fault ?clk ?e ?s = _ =>
          assert (job_dir s = true) as Hf by (job_rewrite; reflexivity);
          apply (on_run_fault_obs clk e) in Hf;
          cbv zeta in Hf; rewrite Hrun in Hf; cbn [fst snd] in Hf;
          rewrite decide_True by reflexivity;
          destruct e; destruct_and!; subst;
          unfold commands; job_rewrite;
          cbn [f_outcome f_assigned f_launched f_status f_exit_code
               f_job_dir];
          rewrite <- ?app_assoc, ?map_app; cbn [app map fst snd];
          rewrite <- ?app_assoc; cbn [app];
          repeat split
      end
    | unfold ret in Hrun; job_close Hrun ]
  | job_close Hrun ].

(** [run_job] in closed form, as far as the claims look at it. *)
Lemma run_job_facts w base mvnw e duration env_base batch rss xmx st :
  let final :=
    run_job text_of_line w base mvnw e duration env_base batch rss xmx st in
  let F :=
    expected_facts w (compile_command mvnw e batch)
      (build_maven_command mvnw e
         (path_parent (log_path (res st)) /: "work" /: "target")
         duration batch rss xmx)
      st in
  final.2 = f_outcome F
  /\ history final.1 = history st ++ f_assigned F
  /\ commands final.1 = commands st ++ f_launched F
  /\ status (res final.1) = f_status F
  /\ exit_code (res final.1) = f_exit_code F
  /\ job_dir final.1 = f_job_dir F.
Proof.
  cbv zeta.
  destruct (run_job _ _ _ _ _ _ _ _ _ _ st) as [fin out] eqn:Hrun.
  unfold expected_facts. cbn [fst snd].
  unfold run_job in Hrun.
  job_step Hrun. job_step Hrun.
  rewrite bind_eq in Hrun. unfold isolate at 1 in Hrun. job_fields_in Hrun.
  destruct (work st) eqn:wk; [| destruct (copy_result w) eqn:copied].
  - do 3 job_step Hrun. job_rest Hrun w.
  - unfold set_work in Hrun. job_fields_in Hrun.
    do 3 job_step Hrun. job_rest Hrun w.
  - injection Hrun as <- <-. unfold commands. job_fields.
    cbn [f_outcome f_assigned f_launched f_status f_exit_code f_job_dir].
    now rewrite app_nil_r.
  - unfold bind, set_work, raise in Hrun. job_fields_in Hrun.
    injection Hrun as <- <-. unfold commands. job_fields.
    cbn [f_outcome f_assigned f_launched f_status f_exit_code f_job_dir].
    now rewrite app_nil_r.
Qed.

Lemma absorbing_last_only (terminal : string -> bool) (h : list string) :
  Forall (fun s => terminal s = false) (removelast h) ->
  absorbing terminal h.
Proof.
  intros Hinit i j s t Hi Hterm Hij Hj.
  apply lookup_lt_Some in Hj.
  assert (removelast h !! i = Some s) as Hi'.
  { rewrite removelast_firstn_len, lookup_take_lt by lia. exact Hi. }
  rewrite Forall_lookup in Hinit.
  specialize (Hinit _ _ Hi'). simpl in Hinit. congruence.
Qed.

Lemma launched_app (st fin : jstate) (cs : list (list string)) :
  commands fin = commands st ++ cs -> launched st fin = cs.
Proof. unfold launched. intros ->. apply drop_app_length. Qed.

Lemma assigned_app (st fin : jstate) (h : list string) :
  history fin = history st ++ h -> assigned st fin = h.
Proof. unfold assigned. intros ->. apply drop_app_length. Qed.

(** When [run_job] returns, the status it leaves is [passed] or
    [failed]. *)
Lemma run_job_returns_verdict w base mvnw e duration env_base batch rss
    xmx st :
  let final :=
    run_job text_of_line w base mvnw e duration env_base batch rss xmx st in
  final.2 = Ok tt ->
  status (res final.1) = "passed" \/ status (res final.1) = "failed".
Proof.
  intros final Hok.
  destruct (run_job_facts w base mvnw e duration env_base batch rss xmx st)
    as (Ho & _ & _ & Hs & _).
  fold final in Ho, Hs. rewrite Hs. rewrite Hok in Ho.
  unfold expected_facts, verdict in *.
  repeat (case_match; simplify_eq/=; auto).
Qed.

(** C2: when the compile phase does not end with exit code 0, [run_job]
    launches no second process: the run phase is not invoked.  In
    particular, when the compile-phase process exits with a non-zero
    code, the job returns with status [failed], carrying that exit code,
    and the only process launched is the compile command. *)
Theorem compile_failure_skips_run_phase w base mvnw e duration env_base
    batch rss xmx st :
  (forall ls, compile_proc w <> Spawned ls (Exit 0)) ->
  let final :=
    run_job text_of_line w base mvnw e duration env_base batch rss xmx st in
  (launched st final.1 = []
   \/ launched st final.1 = [compile_command mvnw e batch])
  /\ (forall lines code,
        is_Some (work st) \/ copy_result w = CopyDone ->
        compile_proc w = Spawned lines (Exit code) ->
        final.2 = Ok tt
        /\ status (res final.1) = "failed"
        /\ exit_code (res final.1) = Some code
        /\ launched st final.1 = [compile_command mvnw e batch]).
Proof.
  intros Hnot final.
  destruct (run_job_facts w base mvnw e duration env_base batch rss xmx st)
    as (Ho & _ & Hc & Hs & Hx & _).
  fold final in Ho, Hc, Hs, Hx. apply launched_app in Hc.
  rewrite Ho, Hc, Hs, Hx. clear Ho Hc Hs Hx.
  unfold expected_facts. split.
  - destruct (work st), (copy_result w), (compile_proc w) as [?|ls [code|?]];
      simpl; auto;
      destruct (decide (code = 0)) as [->|?]; simpl; auto;
      now destruct (Hnot ls).
  - intros lines code Hiso Hcompile. rewrite Hcompile.
    assert (code <> 0) as Hcode by (intros ->; now destruct (Hnot lines)).
    destruct Hiso as [[t Hwork] | Hcopy];
      [rewrite Hwork | rewrite Hcopy; destruct (work st)];
      simpl; rewrite decide_False by assumption; auto.
Qed.

(** No phase after a failed copy: when the workspace copy fails, [run_job]
    raises an exception without having launched a process or changed the
    status from [queued]. *)
Lemma isolation_failure_stops_job w base mvnw e duration env_base batch
    rss xmx st :
  work st = None ->
  copy_result w <> CopyDone ->
  let final :=
    run_job text_of_line w base mvnw e duration env_base batch rss xmx st in
  (exists what, final.2 = Raise (Exception what))
  /\ launched st final.1 = []
  /\ assigned st final.1 = ["queued"]
  /\ job_dir final.1 =
       match copy_result w with
       | CopyFailsDuring _ _ => true
       | _ => job_dir st
       end.
Proof.
  intros Hwork Hcopy final.
  destruct (run_job_facts w base mvnw e duration env_base batch rss xmx st)
    as (Ho & Hh & Hc & _ & _ & Hd).
  fold final in Ho, Hh, Hc, Hd.
  apply launched_app in Hc. apply assigned_app in Hh.
  rewrite Ho, Hh, Hc, Hd. unfold expected_facts. rewrite Hwork.
  destruct (copy_result w); [contradiction | |]; simpl; eauto.
Qed.

(** C5 (amended): the statuses that [run_job] assigns, in order, are all
    among [queued], [running], [passed], [failed] and [cancelled], and
    [failed] and [cancelled] are absorbing: once one of them has been
    assigned, no different status is assigned any more. *)
Theorem failed_and_cancelled_are_absorbing w base mvnw e duration env_base
    batch rss xmx st :
  let final :=
    run_job text_of_line w base mvnw e duration env_base batch rss xmx st in
  let h := assigned st final.1 in
  history final.1 = history st ++ h
  /\ Forall (fun s => known_status s = true) h
  /\ absorbing final_status h.
Proof.
  intros final h.
  destruct (run_job_facts w base mvnw e duration env_base batch rss xmx st)
    as (_ & Hh & _).
  fold final in Hh. subst h. rewrite (assigned_app _ _ _ Hh).
  split; [exact Hh|]. clear Hh.
  unfold expected_facts, verdict.
  repeat case_match; simplify_eq/=;
    (split; [repeat constructor
            | apply absorbing_last_only; repeat constructor]).
Qed.

End JobFacts.

(** ** The scheduler *)

Section FoldInsert.

Context {A V : Type} (key : A -> string) (val : A -> V).

Local Abbreviation build m l :=
  (foldl (fun (acc : gmap string V) e => <[key e := val e]> acc) m l).

Lemma build_lookup_other (l : list A) : forall m k,
  k ∉ key <$> l -> build m l !! k = m !! k.
Proof.
  induction l as [|e l IH]; intros m k Hk; simpl; [reflexivity|].
  rewrite fmap_cons, not_elem_of_cons in Hk. destruct Hk as [Hne Hk].
  rewrite IH by assumption.
  now rewrite lookup_insert_ne.
Qed.

Lemma build_lookup (l : list A) : forall m e,
  NoDup (key <$> l) -> e ∈ l -> build m l !! key e = Some (val e).
Proof.
  induction l as [|x l IH]; intros m e Hnd He; simpl.
  - now apply elem_of_nil in He.
  - rewrite fmap_cons in Hnd. apply NoDup_cons in Hnd as [Hx Hnd].
    apply elem_of_cons in He as [-> | He].
    + rewrite build_lookup_other by assumption.
      apply lookup_insert_eq.
    + now apply IH.
Qed.

Lemma build_lookup_is_Some (l : list A) : forall m k,
  is_Some (build m l !! k) -> is_Some (m !! k) \/ k ∈ key <$> l.
Proof.
  induction l as [|x l IH]; intros m k Hk; [now left|].
  rewrite fmap_cons. simpl in Hk.
  apply IH in Hk as [Hk | Hk].
  - destruct (decide (key x = k)) as [<- | Hne].
    + right. apply elem_of_cons. now left.
    + left. now rewrite lookup_insert_ne in Hk.
  - right. apply elem_of_cons. now right.
Qed.

Lemma build_size (l : list A) :
  NoDup (key <$> l) -> size (build ∅ l) = length l.
Proof.
  intros Hnd.
  assert (forall m, (forall k, k ∈ key <$> l -> m !! k = None) ->
                    size (build m l) = (size m + length l)%nat) as Hgen.
  { revert Hnd.
    induction l as [|x l IH]; intros Hnd m Hfresh; simpl; [lia|].
    rewrite fmap_cons in Hnd, Hfresh. apply NoDup_cons in Hnd as [Hx Hnd].
    rewrite IH; [| assumption |].
    - rewrite map_size_insert_None; [lia|].
      apply Hfresh, elem_of_cons. now left.
    - intros k Hk. rewrite lookup_insert_ne.
      + apply Hfresh, elem_of_cons. now right.
      + intros Heq. apply Hx. now rewrite Heq. }
  rewrite Hgen; [now rewrite map_size_empty|].
  intros k _. apply lookup_empty.
Qed.

Lemma build_is_Some_keep (l : list A) : forall m k,
  is_Some (m !! k) -> is_Some (build m l !! k).
Proof.
  induction l as [|x l IH]; intros m k Hk; simpl; [exact Hk|].
  apply IH. destruct (decide (key x = k)) as [<- | Hne].
  - rewrite lookup_insert_eq. eauto.
  - now rewrite lookup_insert_ne.
Qed.

Lemma build_is_Some_key (l : list A) : forall m k,
  k ∈ key <$> l -> is_Some (build m l !! k).
Proof.
  induction l as [|x l IH]; intros m k Hk.
  - now apply elem_of_nil in Hk.
  - rewrite fmap_cons in Hk. simpl.
    apply elem_of_cons in Hk as [-> | Hk]; [|now apply IH].
    apply build_is_Some_keep. rewrite lookup_insert_eq. eauto.
Qed.

Lemma build_lookup_inv (l : list A) : forall m k v,
  build m l !! k = Some v ->
  m !! k = Some v \/ exists e, e ∈ l /\ key e = k /\ v = val e.
Proof.
  induction l as [|x l IH]; intros m k v Hk; simpl in Hk; [now left|].
  apply IH in Hk as [Hk | (e & He & Hkey & Hv)].
  - destruct (decide (key x = k)) as [<- | Hne].
    + rewrite lookup_insert_eq in Hk. simplify_eq.
      right. exists x. split; [apply elem_of_cons; now left | done].
    + rewrite lookup_insert_ne in Hk by done. now left.
  - right. exists e. split; [apply elem_of_cons; now right | done].
Qed.

End FoldInsert.

Section DrainFacts.

Variables (execs : list FuzzExecution) (out_dir : Path) (started : Z)
          (clk : nat -> Z) (faults : string -> option string).

Lemma find_by_id (k : string) :
  (exists e, e ∈ execs /\ execution_id e = k) ->
  exists e, find (fun ev => bool_decide (execution_id ev = k)) execs = Some e
            /\ e ∈ execs /\ execution_id e = k.
Proof.
  intros (e & He & Hk).
  destruct (find _ execs) as [e'|] eqn:Hfind.
  - apply find_some in Hfind as [Hin Hid].
    apply bool_decide_eq_true in Hid. apply list_elem_of_In in Hin. eauto.
  - apply list_elem_of_In in He.
    pose proof (find_none _ _ Hfind _ He) as Hno. simpl in Hno.
    apply bool_decide_eq_false in Hno. contradiction.
Qed.

(** Total coverage of the drain loop: when every pending task completes
    and can be drained, the loop ends and has given every task its entry,
    leaving the other entries alone. *)
Lemma drain_total (order : list string) :
  forall tasks results logs n,
  (forall k t, tasks !! k = Some t ->
     drainable faults k t /\ k <> ""
     /\ exists e, e ∈ execs /\ execution_id e = k) ->
  (forall k, is_Some (tasks !! k) -> k ∈ order) ->
  exists results' logs' n',
    drain execs out_dir started clk faults order tasks results logs n
    = Drained results' logs' n'
    /\ (forall k, tasks !! k = None -> results' !! k = results !! k)
    /\ (forall k st o, tasks !! k = Some (st, o) ->
          match o with
          | Ok _ => results' !! k = Some (res st)
          | Raise _ =>
              exists e t, e ∈ execs /\ execution_id e = k
                /\ results' !! k = Some (failed_result out_dir e started t)
          end).
Proof.
  induction order as [|k order IH]; intros tasks results logs n Hok Hall.
  - assert (tasks = ∅) as ->.
    { apply map_empty. intros k. apply eq_None_not_Some. intros Hk.
      apply Hall in Hk. now apply elem_of_nil in Hk. }
    simpl. rewrite decide_True by reflexivity.
    exists results, logs, n. split; [reflexivity|]. split; [reflexivity|].
    intros k st o Hk. now rewrite lookup_empty in Hk.
  - simpl. destruct (tasks !! k) as [[st o]|] eqn:Hk.
    + destruct (Hok _ _ Hk) as (Hdrain & Hne & Hexec).
      assert (forall r logs' n',
        exists results' logs'' n'',
          drain execs out_dir started clk faults order (delete k tasks)
            (<[k := r]> results) logs' n' = Drained results' logs'' n''
          /\ (forall k', tasks !! k' = None ->
                results' !! k' = results !! k')
          /\ results' !! k = Some r
          /\ (forall k' st' o', k' <> k -> tasks !! k' = Some (st', o') ->
                match o' with
                | Ok _ => results' !! k' = Some (res st')
                | Raise _ =>
                    exists e t, e ∈ execs /\ execution_id e = k'
                      /\ results' !! k' =
                           Some (failed_result out_dir e started t)
                end)) as Hnext.
      { intros r logs' n'.
        destruct (IH (delete k tasks) (<[k := r]> results) logs' n')
          as (results' & logs'' & n'' & Hrun & Hkeep & Hset).
        - intros k' t Hk'. apply lookup_delete_Some in Hk' as [_ Hk'].
          eauto.
        - intros k' Hk'. rewrite lookup_delete_is_Some in Hk'.
          destruct Hk' as [Hne' Hk']. apply Hall in Hk'.
          apply elem_of_cons in Hk' as [-> | Hk']; [contradiction | done].
        - exists results', logs'', n''. split; [exact Hrun|].
          split; [|split].
          + intros k' Hk'. rewrite Hkeep.
            * apply lookup_insert_ne. intros ->. congruence.
            * rewrite lookup_delete_None. now right.
          + rewrite Hkeep by apply lookup_delete_eq.
            apply lookup_insert_eq.
          + intros k' st' o' Hne' Hk'. apply Hset.
            now rewrite lookup_delete_ne. }
      unfold drainable in Hdrain. simpl in Hdrain.
      destruct o as [u | [what|]]; [| | contradiction].
      * rewrite decide_False by assumption.
        destruct (Hnext (res st) (<[k := default [] (log st)]> logs) n)
          as (results' & logs'' & n'' & Hrun & Hkeep & Hhere & Hset).
        exists results', logs'', n''. split; [exact Hrun|].
        split; [exact Hkeep|].
        intros k' st' o' Hk'. destruct (decide (k' = k)) as [-> | Hne'].
        -- rewrite Hk in Hk'. now simplify_eq.
        -- now apply Hset.
      * destruct (find_by_id k Hexec) as (e & -> & He & Hid).
        destruct Hdrain as [Hdir Hnote].
        rewrite Hdir, Hnote, decide_False by assumption.
        match goal with
        | |- context [drain _ _ _ _ _ _ _ (<[k := ?r]> _) ?l ?m] =>
            destruct (Hnext r l m)
              as (results' & logs'' & n'' & Hrun & Hkeep & Hhere & Hset)
        end.
        exists results', logs'', n''. split; [exact Hrun|].
        split; [exact Hkeep|].
        intros k' st' o' Hk'. destruct (decide (k' = k)) as [-> | Hne'].
        -- rewrite Hk in Hk'. simplify_eq. eauto.
        -- now apply Hset.
    + apply IH; [exact Hok|].
      intros k' Hk'. pose proof (Hall _ Hk') as Hin.
      apply elem_of_cons in Hin as [-> | Hin]; [|done].
      rewrite Hk in Hk'. now destruct Hk'.
Qed.

(** Whenever the drain loop ends, every entry that a task stood for is
    [passed] or [failed]. *)
Lemma drain_statuses (order : list string) :
  forall tasks results logs n results' logs' n',
  drain execs out_dir started clk faults order tasks results logs n
  = Drained results' logs' n' ->
  (forall k st, tasks !! k = Some (st, Ok tt) -> verdict_status (res st)) ->
  (forall k r, results !! k = Some r ->
     is_Some (tasks !! k) \/ verdict_status r) ->
  forall k r, results' !! k = Some r -> verdict_status r.
Proof.
  induction order as [|k order IH];
    intros tasks results logs n results' logs' n' Hrun Hok Hres; simpl in Hrun.
  - destruct (decide (tasks = ∅)) as [-> |]; [|discriminate].
    simplify_eq. intros k r Hk.
    destruct (Hres _ _ Hk) as [Hsome | Hv]; [|exact Hv].
    rewrite lookup_empty in Hsome. now destruct Hsome.
  - assert (forall r0 logs0 n0,
        drain execs out_dir started clk faults order (delete k tasks)
          (<[k := r0]> results) logs0 n0 = Drained results' logs' n' ->
        verdict_status r0 ->
        forall k' r, results' !! k' = Some r -> verdict_status r) as Hnext.
    { intros r0 logs0 n0 Hrun' Hr0.
      apply (IH _ _ _ _ _ _ _ Hrun').
      - intros k' st' Hk'. apply lookup_delete_Some in Hk' as [_ Hk'].
        eauto.
      - intros k' r Hk'. destruct (decide (k' = k)) as [-> | Hne].
        + rewrite lookup_insert_eq in Hk'. simplify_eq. now right.
        + rewrite lookup_insert_ne in Hk' by done.
          destruct (Hres _ _ Hk') as [Hsome | Hv]; [left | now right].
          now rewrite lookup_delete_ne. }
    destruct (tasks !! k) as [[st [[] | [what|]]]|] eqn:Hk.
    + destruct (decide (k = "")); [discriminate|].
      eapply Hnext; [exact Hrun | eauto].
    + destruct (find _ execs) as [e|]; [|discriminate].
      destruct (job_dir st); [|discriminate].
      destruct (faults k); [discriminate|].
      destruct (decide (k = "")); [discriminate|].
      eapply Hnext; [exact Hrun | now right].
    + discriminate.
    + eapply IH; eauto.
Qed.

End DrainFacts.

Lemma count_status_zero (v : string) (results : gmap string JobResult) :
  count_status v results = 0%nat <->
  forall k r, results !! k = Some r -> status r <> v.
Proof.
  unfold count_status. rewrite length_zero_iff_nil. split.
  - intros Hnil k r Hk Hv.
    apply elem_of_map_to_list in Hk.
    assert ((k, r) ∈ filter (fun kr => status kr.2 = v) (map_to_list results))
      as Hin by (apply list_elem_of_filter; done).
    rewrite Hnil in Hin. now apply elem_of_nil in Hin.
  - intros Hall.
    destruct (filter _ (map_to_list results)) as [|[k r] l] eqn:Hf;
      [reflexivity|].
    assert ((k, r) ∈ filter (fun kr => status kr.2 = v) (map_to_list results))
      as Hin by (rewrite Hf; apply elem_of_cons; now left).
    apply list_elem_of_filter in Hin as [Hv Hin].
    apply elem_of_map_to_list in Hin. now destruct (Hall _ _ Hin).
Qed.

Section DrainSound.

Variables (execs : list FuzzExecution) (out_dir : Path) (started : Z)
          (clk : nat -> Z) (faults : string -> option string).

(** What the drain loop has done when it ends: every task has its entry
    (what its job returned, or the [failed] entry built for it), and the
    other entries are as they were. *)
Lemma drain_sound (order : list string) :
  forall tasks results logs n results' logs' n',
  drain execs out_dir started clk faults order tasks results logs n
  = Drained results' logs' n' ->
  (forall k, tasks !! k = None -> results' !! k = results !! k)
  /\ (forall k st o, tasks !! k = Some (st, o) ->
        match o with
        | Ok _ => results' !! k = Some (res st)
        | Raise _ =>
            exists e t, e ∈ execs /\ execution_id e = k
              /\ results' !! k = Some (failed_result out_dir e started t)
        end).
Proof.
  induction order as [|k order IH];
    intros tasks results logs n results' logs' n' Hrun; simpl in Hrun.
  - destruct (decide (tasks = ∅)) as [-> |]; [|discriminate].
    simplify_eq. split; [reflexivity|].
    intros k st o Hk. now rewrite lookup_empty in Hk.
  - assert (forall st o r logs0 n0,
        tasks !! k = Some (st, o) ->
        drain execs out_dir started clk faults order (delete k tasks)
          (<[k := r]> results) logs0 n0 = Drained results' logs' n' ->
        (forall k', tasks !! k' = None -> results' !! k' = results !! k')
        /\ results' !! k = Some r
        /\ (forall k' st' o', k' <> k -> tasks !! k' = Some (st', o') ->
              match o' with
              | Ok _ => results' !! k' = Some (res st')
              | Raise _ =>
                  exists e t, e ∈ execs /\ execution_id e = k'
                    /\ results' !! k' =
                         Some (failed_result out_dir e started t)
              end)) as Hnext.
    { intros st o r logs0 n0 Hk Hrun'.
      apply IH in Hrun' as [Hkeep Hset]. split; [|split].
      - intros k' Hk'. rewrite Hkeep.
        + apply lookup_insert_ne. intros ->. congruence.
        + rewrite lookup_delete_None. now right.
      - rewrite Hkeep by apply lookup_delete_eq. apply lookup_insert_eq.
      - intros k' st' o' Hne Hk'. apply Hset.
        now rewrite lookup_delete_ne. }
    destruct (tasks !! k) as [[st [[] | [what|]]]|] eqn:Hk.
    + destruct (decide (k = "")); [discriminate|].
      destruct (Hnext _ _ _ _ _ eq_refl Hrun) as (Hkeep & Hhere & Hset).
      split; [exact Hkeep|].
      intros k' st' o' Hk'. destruct (decide (k' = k)) as [-> | Hne].
      * rewrite Hk in Hk'. now simplify_eq.
      * now apply Hset.
    + destruct (find _ execs) as [e|] eqn:Hfind; [|discriminate].
      destruct (job_dir st); [|discriminate].
      destruct (faults k); [discriminate|].
      destruct (decide (k = "")); [discriminate|].
      destruct (Hnext _ _ _ _ _ eq_refl Hrun) as (Hkeep & Hhere & Hset).
      split; [exact Hkeep|].
      intros k' st' o' Hk'. destruct (decide (k' = k)) as [-> | Hne].
      * rewrite Hk in Hk'. simplify_eq.
        apply find_some in Hfind as [Hin Hid].
        apply bool_decide_eq_true in Hid. apply list_elem_of_In in Hin.
        eauto.
      * now apply Hset.
    + discriminate.
    + apply IH in Hrun as [Hkeep Hset]. split; [exact Hkeep|].
      intros k' st' o' Hk'. now apply Hset.
Qed.

(** A task that raised while the directory of its log does not exist
    keeps the loop from ending. *)
Lemma drain_blocked (order : list string) :
  forall tasks results logs n k st what,
  tasks !! k = Some (st, Raise (Exception what)) -> job_dir st = false ->
  forall results' logs' n',
    drain execs out_dir started clk faults order tasks results logs n
    <> Drained results' logs' n'.
Proof.
  induction order as [|k0 order IH];
    intros tasks results logs n k st what Hk Hdir results' logs' n'; simpl.
  - destruct (decide (tasks = ∅)) as [-> |]; [|discriminate].
    now rewrite lookup_empty in Hk.
  - assert (forall r logs0 n0, k <> k0 ->
        drain execs out_dir started clk faults order (delete k0 tasks)
          (<[k0 := r]> results) logs0 n0 <> Drained results' logs' n')
      as Hnext.
    { intros r logs0 n0 Hne. eapply IH; [|exact Hdir].
      rewrite lookup_delete_ne by done. exact Hk. }
    destruct (tasks !! k0) as [[st0 [[] | [what0|]]]|] eqn:Hk0.
    + destruct (decide (k0 = "")); [discriminate|].
      apply Hnext. intros ->. congruence.
    + destruct (find _ execs) as [e|]; [|discriminate].
      destruct (job_dir st0) eqn:Hdir0; [|discriminate].
      destruct (faults k0); [discriminate|].
      destruct (decide (k0 = "")); [discriminate|].
      apply Hnext. intros ->. congruence.
    + discriminate.
    + eapply IH; eauto.
Qed.

End DrainSound.

Section SchedulerFacts.

Variable text_of_line : string -> string.

Lemma run_one_returns_verdict args W results e st :
  run_one text_of_line args W results e = (st, Ok tt) ->
  verdict_status (res st).
Proof.
  unfold run_one. intros Hrun.
  match type of Hrun with
  | run_job ?t ?w ?b ?m ?e ?d ?eb ?ba ?r ?x ?s = _ =>
      pose proof (run_job_returns_verdict t w b m e d eb ba r x s) as Hv
  end.
  cbv zeta in Hv. rewrite Hrun in Hv. now apply Hv.
Qed.


Lemma NoDup_fmap_elem_inj {A B} (f : A -> B) (l : list A) (x y : A) :
  NoDup (f <$> l) -> x ∈ l -> y ∈ l -> f x = f y -> x = y.
Proof.
  induction l as [|a l IH]; intros Hnd Hx Hy Heq.
  - now apply elem_of_nil in Hx.
  - rewrite fmap_cons in Hnd. apply NoDup_cons in Hnd as [Ha Hnd].
    apply elem_of_cons in Hx as [-> | Hx];
      apply elem_of_cons in Hy as [-> | Hy]; auto.
    + destruct Ha. rewrite Heq. now apply list_elem_of_fmap_2.
    + destruct Ha. rewrite <- Heq. now apply list_elem_of_fmap_2.
Qed.

(** The shape of every run of [main_async] that returns: a listing; no
    execution left; or the drain loop has ended and the reports were
    written, and then every entry of the results belongs to an execution,
    is [passed] or [failed], and is what the job of its execution returned
    or the [failed] entry built for it. *)
Lemma main_async_returns (args : Args) (pom_execs execs : list FuzzExecution)
    (W : world) (rc : Z) (out : option (gmap string JobResult * Report)) :
  filter_executions pom_execs (args_filter args) = execs ->
  let results0 := initial_results (args_out_dir args) execs in
  main_async text_of_line args pom_execs W = Return rc out ->
  (args_list args = true /\ rc = 0 /\ out = None)
  \/ (args_list args = false /\ execs = [] /\ rc = 1 /\ out = None)
  \/ (args_list args = false /\ execs <> [] /\ 0 <= args_jobs args
      /\ report_fault W = None
      /\ exists results n,
           out = Some (results,
                       make_report_json results "lz4-java" (args_profile args)
                         (args_duration args) (args_jobs args) (args_mvn args)
                         (args_out_dir args) (args_base_dir args) (mclock W)
                         n)
           /\ rc = (if decide (count_status "failed" results = 0%nat)
                    then 0 else 2)
           /\ (forall k, is_Some (results !! k) ->
                 k ∈ execution_id <$> execs)
           /\ (forall k r, results !! k = Some r -> verdict_status r)
           /\ (NoDup (execution_id <$> execs) ->
               forall e, e ∈ execs ->
                 match (run_one text_of_line args W results0 e).2 with
                 | Ok _ =>
                     results !! execution_id e
                     = Some (res (run_one text_of_line args W results0 e).1)
                 | Raise _ =>
                     exists t,
                       results !! execution_id e
                       = Some (failed_result (args_out_dir args) e
                                 (mclock W 0) t)
                 end)).
Proof.
  intros Hfilter results0. unfold main_async. rewrite Hfilter.
  destruct (args_list args); [intros [= <- <-]; now left|].
  destruct execs as [|e0 execs']; [intros [= <- <-]; right; now left|].
  cbv beta iota. set (execs := e0 :: execs') in *. fold results0.
  destruct (decide (args_jobs args < 0)); [discriminate|].
  set (tasks0 := initial_tasks text_of_line args W results0 execs).
  destruct (drain _ _ _ _ _ _ _ _ _ _) as [results logs m| |] eqn:Hdrain;
    [|discriminate..].
  destruct (report_fault W); [discriminate|].
  intros [= <- <-]. right. right.
  split; [reflexivity|]. split; [discriminate|]. split; [lia|].
  split; [reflexivity|].
  exists results, m. split; [reflexivity|]. split; [reflexivity|].
  assert (forall k t, tasks0 !! k = Some t ->
            exists e, e ∈ execs /\ execution_id e = k
                      /\ t = run_one text_of_line args W results0 e)
    as Htask_inv.
  { intros k t Hk. unfold tasks0, initial_tasks in Hk.
    apply build_lookup_inv in Hk as [Hk | Hk]; [|exact Hk].
    now rewrite lookup_empty in Hk. }
  pose proof (drain_sound _ _ _ _ _ _ _ _ _ _ _ _ _ Hdrain) as [Hkeep Hset].
  split; [|split].
  - intros k Hk. destruct (tasks0 !! k) as [t|] eqn:Htk.
    + destruct (Htask_inv _ _ Htk) as (e & He & <- & _).
      now apply list_elem_of_fmap_2.
    + rewrite (Hkeep _ Htk) in Hk. unfold results0, initial_results in Hk.
      apply build_lookup_is_Some in Hk as [Hk | Hk]; [|exact Hk].
      rewrite lookup_empty in Hk. now destruct Hk.
  - eapply drain_statuses; [exact Hdrain | |].
    + intros k st Hk.
      destruct (Htask_inv _ _ Hk) as (e & _ & _ & Hv).
      symmetry in Hv. eapply run_one_returns_verdict, Hv.
    + intros k r Hk. left. fold tasks0.
      unfold results0, initial_results in Hk.
      apply mk_is_Some, build_lookup_is_Some in Hk as [Hk | Hk].
      * rewrite lookup_empty in Hk. now destruct Hk.
      * unfold tasks0, initial_tasks. now apply build_is_Some_key.
  - intros Hnd e He.
    assert (tasks0 !! execution_id e
            = Some (run_one text_of_line args W results0 e)) as Htk
      by (unfold tasks0, initial_tasks;
          now apply (build_lookup execution_id)).
    destruct (run_one text_of_line args W results0 e) as [st o] eqn:Hone.
    specialize (Hset _ _ _ Htk). simpl. destruct o; [exact Hset|].
    destruct Hset as (e' & t & He' & Hid & Hr).
    assert (e' = e) as -> by
      (eapply (NoDup_fmap_elem_inj execution_id); eauto).
    eauto.
Qed.

(** Total coverage, where the code has it: with pairwise distinct,
    non-empty ids, every task completing, no task cancelled, the log of
    every raising task open to the handler's note, and the reports
    written, [main_async] returns, and the results hold exactly one entry
    per execution: what its job returned, or the [failed] entry built for
    it. *)
Lemma main_async_total (args : Args) (pom_execs execs : list FuzzExecution)
    (W : world) :
  filter_executions pom_execs (args_filter args) = execs ->
  let results0 := initial_results (args_out_dir args) execs in
  args_list args = false -> execs <> [] -> 0 < args_jobs args ->
  NoDup (execution_id <$> execs) -> "" ∉ execution_id <$> execs ->
  (forall k, k ∈ execution_id <$> execs -> k ∈ completion W) ->
  (forall e, e ∈ execs ->
     drainable (note_fault W) (execution_id e)
       (run_one text_of_line args W results0 e)) ->
  report_fault W = None ->
  exists rc results report,
    main_async text_of_line args pom_execs W
    = Return rc (Some (results, report))
    /\ rc = (if decide (count_status "failed" results = 0%nat) then 0 else 2)
    /\ size results = length execs
    /\ (forall k, is_Some (results !! k) -> k ∈ execution_id <$> execs)
    /\ (forall e, e ∈ execs ->
          match (run_one text_of_line args W results0 e).2 with
          | Ok _ =>
              results !! execution_id e
              = Some (res (run_one text_of_line args W results0 e).1)
          | Raise _ =>
              exists t,
                results !! execution_id e
                = Some (failed_result (args_out_dir args) e (mclock W 0) t)
          end).
Proof.
  intros Hfilter results0 Hlist Hexecs Hjobs Hnd Hne Hdone Hdrain Hreport.
  unfold main_async. rewrite Hfilter, Hlist.
  destruct execs as [|e0 execs']; [contradiction|]. cbv beta iota.
  set (execs := e0 :: execs') in *.
  rewrite decide_False by lia.
  rewrite (decide_False (P := args_jobs args = 0)) by lia.
  fold results0.
  set (tasks0 := initial_tasks text_of_line args W results0 execs).
  assert (forall e, e ∈ execs ->
            tasks0 !! execution_id e
            = Some (run_one text_of_line args W results0 e)) as Htask.
  { intros e He. unfold tasks0, initial_tasks.
    now apply (build_lookup execution_id). }
  assert (forall k t, tasks0 !! k = Some t ->
            exists e, e ∈ execs /\ execution_id e = k
                      /\ t = run_one text_of_line args W results0 e)
    as Htask_inv.
  { intros k t Hk. unfold tasks0, initial_tasks in Hk.
    apply build_lookup_inv in Hk as [Hk | Hk]; [|exact Hk].
    now rewrite lookup_empty in Hk. }
  destruct (drain_total execs (args_out_dir args) (mclock W 0) (mclock W)
              (note_fault W) (completion W) tasks0 results0 ∅ 1)
    as (results & logs & n & Hrun & Hkeep & Hset).
  { intros k t Hk. destruct (Htask_inv _ _ Hk) as (e & He & <- & ->).
    split; [now apply Hdrain|]. split.
    - intros Hempty. apply Hne. rewrite <- Hempty.
      now apply list_elem_of_fmap_2.
    - eauto. }
  { intros k [t Hk]. destruct (Htask_inv _ _ Hk) as (e & He & <- & _).
    apply Hdone. now apply list_elem_of_fmap_2. }
  fold tasks0. rewrite Hrun, Hreport.
  eexists _, results, _. split; [reflexivity|].
  split; [reflexivity|].
  assert (forall k, is_Some (results !! k) <-> k ∈ execution_id <$> execs)
    as Hdom.
  { intros k. split.
    - intros Hk. destruct (tasks0 !! k) as [t|] eqn:Htk.
      + destruct (Htask_inv _ _ Htk) as (e & He & <- & _).
        now apply list_elem_of_fmap_2.
      + rewrite (Hkeep _ Htk) in Hk. unfold results0, initial_results in Hk.
        apply build_lookup_is_Some in Hk as [Hk | Hk]; [|exact Hk].
        rewrite lookup_empty in Hk. now destruct Hk.
    - intros Hk. apply list_elem_of_fmap in Hk as (e & -> & He).
      pose proof (Htask _ He) as Htk.
      destruct (run_one text_of_line args W results0 e) as [st o] eqn:Hone.
      specialize (Hset _ _ _ Htk). destruct o.
      + rewrite Hset. eauto.
      + destruct Hset as (e' & t & _ & _ & ->). eauto. }
  split; [|split; [intros k; apply Hdom|]].
  - rewrite <- (build_size execution_id (placeholder (args_out_dir args)))
      by assumption.
    fold (initial_results (args_out_dir args) execs). fold results0.
    rewrite <- !size_dom. f_equal. apply set_eq. intros k.
    rewrite !elem_of_dom, Hdom. split.
    + intros Hk. unfold results0, initial_results.
      now apply build_is_Some_key.
    + intros Hk. unfold results0, initial_results in Hk.
      apply build_lookup_is_Some in Hk as [Hk | Hk]; [|exact Hk].
      rewrite lookup_empty in Hk. now destruct Hk.
  - intros e He. pose proof (Htask _ He) as Htk.
    destruct (run_one text_of_line args W results0 e) as [st o] eqn:Hone.
    specialize (Hset _ _ _ Htk). simpl. destruct o; [exact Hset|].
    destruct Hset as (e' & t & He' & Hid & Hr).
    assert (e' = e) as -> by
      (eapply (NoDup_fmap_elem_inj execution_id); eauto).
    eauto.
Qed.


(** The task of an execution stands in the initial task map under the id
    of the execution; with several executions of one id, it is the task of
    one of them. *)
Lemma initial_tasks_lookup args W results execs e :
  e ∈ execs ->
  exists e', e' ∈ execs /\ execution_id e' = execution_id e
    /\ initial_tasks text_of_line args W results execs !! execution_id e
       = Some (run_one text_of_line args W results e').
Proof.
  intros He. unfold initial_tasks.
  destruct (build_is_Some_key execution_id
              (run_one text_of_line args W results) execs ∅ (execution_id e))
    as [t Ht]; [now apply list_elem_of_fmap_2|].
  pose proof Ht as Hinv.
  apply build_lookup_inv in Hinv as [Hinv | (e' & He' & Hid & ->)].
  - now rewrite lookup_empty in Hinv.
  - eauto.
Qed.

(** X25: a workspace copy that fails before the job directory exists
    aborts the whole run: whatever the other jobs do, [main_async] does
    not return, so that no result is reported for any of them. *)
Lemma isolation_failure_without_directory_aborts (args : Args)
    (pom_execs : list FuzzExecution) (W : world) (e : FuzzExecution)
    (what : string) :
  e ∈ filter_executions pom_execs (args_filter args) ->
  args_list args = false ->
  job_dir0 W (execution_id e) = false ->
  work0 W (execution_id e) = None ->
  copy_result (envs W (execution_id e)) = CopyFailsBefore what ->
  forall rc out, main_async text_of_line args pom_execs W <> Return rc out.
Proof.
  intros He Hlist Hdir Hwork Hcopy rc out. unfold main_async.
  rewrite Hlist.
  destruct (filter_executions pom_execs (args_filter args))
    as [|e0 execs'] eqn:Hexecs; [now apply elem_of_nil in He|].
  cbv beta iota. set (execs := e0 :: execs') in *.
  destruct (decide (args_jobs args < 0)); [discriminate|].
  set (results0 := initial_results (args_out_dir args) execs).
  destruct (initial_tasks_lookup args W results0 execs e He)
    as (e' & _ & Hid & Htask).
  destruct (run_one text_of_line args W results0 e') as [st o] eqn:Hone.
  assert (o = Raise (Exception what) /\ job_dir st = false) as [-> Hnodir].
  { unfold run_one in Hone.
    match type of Hone with
    | run_job ?t ?w ?b ?m ?x ?d ?eb ?ba ?r ?y ?s = _ =>
        destruct (run_job_facts t w b m x d eb ba r y s)
          as (Ho & _ & _ & _ & _ & Hd)
    end.
    cbv zeta in Ho, Hd. rewrite Hone in Ho, Hd. simpl in Ho, Hd.
    rewrite Ho, Hd. unfold expected_facts, job_start.
    cbn [work job_dir]. rewrite Hid, Hwork, Hcopy, Hdir. done. }
  destruct (drain _ _ _ _ _ _ _ _ _ _) as [results logs m| |] eqn:Hdrain;
    [|discriminate..].
  exfalso. eapply drain_blocked; [exact Htask | exact Hnodir | exact Hdrain].
Qed.

End SchedulerFacts.

(** ** The workspace copy *)

(** An entry with one of the four exact names is always ignored. *)
Lemma ignore_exact_names (dir : Path) (names : list string) (n : string) :
  n ∈ names -> n ∈ exact_ignored -> n ∈ _ignore dir names.
Proof.
  intros Hin Hexact. unfold _ignore.
  assert (n ∈ (list_to_set (filter (fun n => n ∈ exact_ignored) names)
                : gset string)) as Hfirst.
  { apply elem_of_list_to_set, list_elem_of_filter. done. }
  destruct (decide (_ = ∅)) as [Hempty|_]; [|exact Hfirst].
  rewrite Hempty in Hfirst. now apply not_elem_of_empty in Hfirst.
Qed.

(** Crash artifacts are ignored in the directories that hold none of the
    four exact names. *)
Lemma ignore_crash_artifacts_alone (dir : Path) (names : list string)
    (n : string) :
  (forall m, m ∈ names -> m ∉ exact_ignored) ->
  n ∈ names -> is_crash_artifact n = true -> n ∈ _ignore dir names.
Proof.
  intros Hnone Hin Hcrash. unfold _ignore.
  rewrite decide_True.
  - apply elem_of_list_to_set, list_elem_of_filter. done.
  - apply set_eq. intros m. split; [|intros Hm; now apply not_elem_of_empty in Hm].
    intros Hm. apply elem_of_list_to_set, list_elem_of_filter in Hm as [Hm Hmn].
    now destruct (Hnone _ Hmn).
Qed.

(** ... and only there. *)
Lemma ignore_crash_artifacts_beside_exact (dir : Path) (names : list string)
    (n m : string) :
  m ∈ names -> m ∈ exact_ignored -> n ∉ exact_ignored ->
  n ∉ _ignore dir names.
Proof.
  intros Hm Hexact Hn. unfold _ignore.
  rewrite decide_False.
  - rewrite elem_of_list_to_set, list_elem_of_filter. tauto.
  - intros Hempty.
    assert (m ∈ (list_to_set (filter (fun n => n ∈ exact_ignored) names)
                  : gset string)) as Hfirst
      by (apply elem_of_list_to_set, list_elem_of_filter; done).
    rewrite Hempty in Hfirst. now apply not_elem_of_empty in Hfirst.
Qed.

Lemma entry_nested_ind (P : entry -> Prop) :
  (forall n, P (File n)) ->
  (forall n children, Forall P children -> P (Dir n children)) ->
  forall x, P x.
Proof.
  intros HF HD. fix IH 1. intros [n | n children]; [apply HF|].
  apply HD. induction children as [|c cs IHcs]; constructor;
    [apply IH | exact IHcs].
Qed.

Lemma copied_names_not_exact (x : entry) : forall src n,
  entry_name x ∉ exact_ignored ->
  n ∈ names_of (copy_entry _ignore src x) -> n ∉ exact_ignored.
Proof.
  induction x as [name | name children IH] using entry_nested_ind;
    intros src n Hroot Hn; simpl in Hn.
  - apply list_elem_of_singleton in Hn as ->. exact Hroot.
  - apply elem_of_cons in Hn as [-> | Hn]; [exact Hroot|].
    apply list_elem_of_In, in_concat in Hn as (l & Hl & Hn).
    apply in_map_iff in Hl as (c' & <- & Hc').
    apply list_elem_of_In, list_elem_of_omap in Hc' as (c & Hc & Hkeep).
    destruct (decide (entry_name c ∈ _)) as [|Hkept]; [discriminate|].
    injection Hkeep as <-.
    rewrite Forall_forall in IH.
    apply (IH c Hc (src /: name) n); [|now apply list_elem_of_In].
    intros Hexact. apply Hkept, ignore_exact_names; [|exact Hexact].
    apply list_elem_of_fmap. eauto.
Qed.

(** X24: nothing named [.git], [.idea], [target] or [fuzz-out] is left
    anywhere in the copy, at any depth. *)
Lemma copytree_excludes_exact_names (src : Path) (t : list entry) (n : string) :
  n ∈ tree_names (copytree _ignore src t) -> n ∉ exact_ignored.
Proof.
  unfold tree_names, copytree. intros Hn.
  apply list_elem_of_In, in_concat in Hn as (l & Hl & Hn).
  apply in_map_iff in Hl as (c' & <- & Hc').
  apply list_elem_of_In, list_elem_of_omap in Hc' as (c & Hc & Hkeep).
  destruct (decide (entry_name c ∈ _)) as [|Hkept]; [discriminate|].
  injection Hkeep as <-.
  apply (copied_names_not_exact c src n); [|now apply list_elem_of_In].
  intros Hexact. apply Hkept, ignore_exact_names; [|exact Hexact].
  apply list_elem_of_fmap. eauto.
Qed.

(** ** The claims on the sample runs *)

Example passing_job_statuses :
  assigned (Sample.fresh Sample.decompress) (Sample.run Sample.passes).1
  = ["queued"; "running"; "passed"; "running"; "passed"].
Proof. vm_compute. reflexivity. Qed.

Example passing_job_tail :
  last_lines (res (Sample.run Sample.passes).1) = drop 2 (Sample.numbered 10)
  /\ log (Sample.run Sample.passes).1 = Some (Sample.numbered 10).
Proof. split; vm_compute; reflexivity. Qed.

Example cancelled_job_statuses :
  (Sample.run Sample.cancelled_mid_run).2 = Raise CancelledError
  /\ assigned (Sample.fresh Sample.decompress)
       (Sample.run Sample.cancelled_mid_run).1
     = ["queued"; "running"; "passed"; "running"; "cancelled"].
Proof. split; vm_compute; reflexivity. Qed.

Example all_pass_exit_code :
  process_exit_code (Sample.main Sample.passes) = Some 0
  /\ process_exit_code (Sample.main Sample.compile_fails) = Some 2
  /\ process_exit_code
       (main_async (fun l => l) Sample.args [] (Sample.world_with Sample.passes))
     = Some 1.
Proof. repeat split; vm_compute; reflexivity. Qed.

Lemma numbered_nonempty (n : nat) :
  Forall (fun l => l <> "") (Sample.numbered n).
Proof.
  unfold Sample.numbered. apply Forall_forall. intros l Hl.
  apply list_elem_of_fmap in Hl as (i & -> & _).
  destruct i; discriminate.
Qed.

Lemma ring_buffer_keeps_last_lines_witness :
  Forall (fun l => l <> "") (Sample.numbered 100)
  /\ last_lines
       (res (stream_process (fun l => l) Sample.tick ["./mvnw"] ["repo"] ∅
               (Spawned (Sample.numbered 100) (Exit 0))
               (Sample.fresh Sample.decompress)).1)
     = map (fun l => l) (drop (100 - 8) (Sample.numbered 100))
  /\ log (stream_process (fun l => l) Sample.tick ["./mvnw"] ["repo"] ∅
            (Spawned (Sample.numbered 100) (Exit 0))
            (Sample.fresh Sample.decompress)).1
     = Some (Sample.numbered 100).
Proof.
  split; [apply numbered_nonempty|].
  destruct (ring_buffer_keeps_last_lines (fun l => l) (Sample.numbered 100)
              Sample.tick ["./mvnw"] ["repo"] ∅ 0
              (Sample.fresh Sample.decompress) (Sample.fresh Sample.decompress)
              (numbered_nonempty 100))
    as (_ & _ & _ & _ & Htail & Hlog).
  split; [|exact Hlog].
  apply Htail. vm_compute. lia.
Defined.

Lemma compile_failure_skips_run_phase_witness :
  (forall ls, compile_proc Sample.compile_fails <> Spawned ls (Exit 0))
  /\ status (res (Sample.run Sample.compile_fails).1) = "failed"
  /\ launched (Sample.fresh Sample.decompress)
       (Sample.run Sample.compile_fails).1
     = [compile_command "./mvnw" Sample.decompress true].
Proof.
  assert (forall ls, compile_proc Sample.compile_fails <> Spawned ls (Exit 0))
    as Hnot by (intros ls; discriminate).
  split; [exact Hnot|].
  destruct (compile_failure_skips_run_phase (fun l => l) Sample.compile_fails
              ["repo"] "./mvnw" Sample.decompress "5s" ∅ true 1024 700
              (Sample.fresh Sample.decompress) Hnot) as [_ Hfail].
  destruct (Hfail _ 1 (or_intror eq_refl) eq_refl) as (_ & Hstatus & _ & Hone).
  split; [exact Hstatus | exact Hone].
Defined.



(** C4 fails on the code.  The base directory of [fuzz-decompress] cannot
    be read, on a fresh output directory: the job raises out of the copy
    with no process launched and its status still [queued]; the sibling
    [fuzz-compress] passes; and yet [main_async] ends with
    [FileNotFoundError], raised by the note that the handler of the drain
    loop appends to the log of the failed job, so that the run is aborted
    and the process exits with 1. *)
Theorem isolation_failure_aborts_the_run :
  (Sample.job Sample.unreadable_base Sample.decompress).2
  = Raise (Exception "PermissionError")
  /\ commands (Sample.job Sample.unreadable_base Sample.decompress).1 = []
  /\ status (res (Sample.job Sample.unreadable_base Sample.decompress).1)
     = "queued"
  /\ job_dir (Sample.job Sample.unreadable_base Sample.decompress).1 = false
  /\ (Sample.job Sample.unreadable_base Sample.compress).2 = Ok tt
  /\ status (res (Sample.job Sample.unreadable_base Sample.compress).1)
     = "passed"
  /\ Sample.main Sample.unreadable_base
     = Propagate (Exception "FileNotFoundError")
  /\ process_exit_code (Sample.main Sample.unreadable_base) = Some 1.
Proof. repeat split; vm_compute; reflexivity. Qed.

(** C1 fails on the code (first part: cancellation; second part:
    isolation failure).  With two executions submitted, a job task that is
    cancelled in mid-run makes [main_async] end with [CancelledError]: the
    [except Exception] of the drain loop does not catch it, and no result
    at all is reported.  The same happens when a workspace copy fails
    before its destination exists: the handler's own note to the job's log
    raises [FileNotFoundError]. *)
Theorem job_fault_escapes_the_drain :
  Sample.main Sample.cancelled_mid_run = Propagate CancelledError
  /\ Sample.main Sample.cannot_create
     = Propagate (Exception "FileNotFoundError").
Proof. split; vm_compute; reflexivity. Qed.

(** C5, as stated, fails: after a successful compile phase the status is
    [passed], and the run phase then sets it to [running] again. *)
Lemma passed_is_left_again :
  ~ absorbing terminal_status
      (assigned (Sample.fresh Sample.decompress) (Sample.run Sample.passes).1).
Proof.
  intros Habs.
  specialize (Habs 2%nat 3%nat "passed" "running").
  discriminate Habs; try reflexivity; lia.
Qed.

(** C8 fails on the code: the root of the checkout holds [.git], so
    [_ignore] returns the exact-name matches only, and the crash file
    beside it is copied. *)
Theorem crash_artifact_is_copied :
  copytree _ignore ["repo"] Sample.checkout
  = [File "crash-1f3a"; File "pom.xml"; Dir "src" [File "Main.java"]]
  /\ excluded_name "crash-1f3a" = true
  /\ ~ copy_excludes_all ["repo"] Sample.checkout.
Proof.
  assert (copytree _ignore ["repo"] Sample.checkout
          = [File "crash-1f3a"; File "pom.xml"; Dir "src" [File "Main.java"]])
    as Hcopy by (vm_compute; reflexivity).
  split; [exact Hcopy|]. split; [vm_compute; reflexivity|].
  intros Hall. specialize (Hall "crash-1f3a").
  rewrite Hcopy in Hall.
  assert (excluded_name "crash-1f3a" = false) as Hno.
  { apply Hall. simpl. apply elem_of_cons. now left. }
  vm_compute in Hno. discriminate.
Qed.

(** * Further properties of the script *)

(** ** Test selectors and filtering *)

Lemma split_once_join (sep : ascii) (s : string) :
  match split_once sep s with
  | (a, Some b) => s = a +:+ String sep b
  | (a, None) => s = a
  end
  /\ string_forallb (fun c => negb (bool_decide (c = sep)))
       (split_once sep s).1 = true.
Proof.
  induction s as [|c s IH]; simpl; [done|].
  destruct (decide (c = sep)) as [-> | Hne]; simpl; [done|].
  destruct (split_once sep s) as [a [b|]]; simpl in *;
    destruct IH as [-> IH]; rewrite IH, bool_decide_eq_false_2 by done; done.
Qed.

(** X1: [test_class] and [test_method] split the test selector at its
    first [#]: with a [#], class, [#] and method put together give the
    selector back and the class holds no [#]; without one, there is no
    method and the class is the whole selector. *)
Theorem test_class_method_round_trip (e : FuzzExecution) :
  exists cls,
    test_class e = Some cls
    /\ string_forallb (fun c => negb (bool_decide (c = "#"%char))) cls = true
    /\ match test_method e with
       | Some m => test_spec e = cls +:+ "#" +:+ m
       | None => test_spec e = cls
       end.
Proof.
  unfold test_class, test_method.
  destruct (split_once_join "#" (test_spec e)) as [Hjoin Hcls].
  exists (split_once "#" (test_spec e)).1. split; [done|]. split; [done|].
  destruct (split_once "#" (test_spec e)) as [a [b|]]; done.
Qed.

Lemma substring_from_zero (t s : string) :
  String.substring 0 (String.length t) s = t -> exists post, s = t +:+ post.
Proof.
  revert s. induction t as [|c t IH]; intros s Hs; simpl in *.
  - exists s. done.
  - destruct s as [|c' s]; simpl in Hs; [discriminate|].
    injection Hs as -> Hs. destruct (IH _ Hs) as [post ->]. by exists post.
Qed.

Lemma substring_decompose (t s : string) (m : nat) :
  t <> "" ->
  String.substring m (String.length t) s = t -> has_substring t s.
Proof.
  intros Ht. revert s. induction m as [|m IH]; intros s Hs.
  - destruct (substring_from_zero _ _ Hs) as [post ->]. by exists "", post.
  - destruct s as [|c s]; simpl in Hs.
    + destruct t; [done | discriminate].
    + destruct (IH _ Hs) as (pre & post & ->). by exists (String c pre), post.
Qed.

Lemma substring_of_front (t post : string) :
  String.substring 0 (String.length t) (t +:+ post) = t.
Proof.
  induction t as [|c t IH]; simpl.
  - destruct post; reflexivity.
  - now rewrite IH.
Qed.

Lemma substring_of_middle (pre t post : string) :
  String.substring (String.length pre) (String.length t) (pre +:+ t +:+ post)
  = t.
Proof.
  induction pre as [|c pre IH]; simpl;
    [exact (substring_of_front t post) | exact IH].
Qed.

Lemma contains_spec (pat s : string) :
  pat <> "" -> (contains pat s = true <-> has_substring pat s).
Proof.
  intros Hpat. unfold contains. rewrite bool_decide_eq_true. split.
  - intros [m Hm]. apply String.index_correct1 in Hm.
    by apply substring_decompose in Hm.
  - intros (pre & post & ->).
    destruct (String.index 0 pat (pre +:+ pat +:+ post)) as [m|] eqn:Hidx;
      [done|].
    pose proof (String.index_correct3 0 (String.length pre) _ _ Hidx Hpat
                  ltac:(lia)) as Hno.
    by rewrite substring_of_middle in Hno.
Qed.

(** X2: without a pattern ([None] or the empty string) [filter_executions]
    returns the list as it is; with a pattern it returns a sub-sequence of
    the list (the order is kept) that holds exactly the executions whose id
    or test selector contains the pattern as a substring. *)
Theorem filter_executions_spec (execs : list FuzzExecution)
    (pattern : option string) :
  match pattern with
  | None | Some "" => filter_executions execs pattern = execs
  | Some pat =>
      filter_executions execs pattern `sublist_of` execs
      /\ forall e,
           e ∈ filter_executions execs pattern <->
           e ∈ execs /\ (has_substring pat (execution_id e)
                         \/ has_substring pat (test_spec e))
  end.
Proof.
  destruct pattern as [[|c pat]|]; [done | | done].
  simpl. split; [apply sublist_filter|].
  intros e. rewrite list_elem_of_filter, Is_true_true, orb_true_iff.
  rewrite !contains_spec by done. tauto.
Qed.

(** X3: filtering twice with the same pattern changes nothing more. *)
Theorem filter_executions_idempotent (execs : list FuzzExecution)
    (pattern : option string) :
  filter_executions (filter_executions execs pattern) pattern
  = filter_executions execs pattern.
Proof.
  destruct pattern as [[|c pat]|]; [done | | done].
  simpl. induction execs as [|e execs IH]; [done|].
  rewrite filter_cons. case_decide as He; [|exact IH].
  rewrite filter_cons, decide_True by done. by rewrite IH.
Qed.

(** ** Path sanitising, continued *)

Lemma sanitize_for_path_safe_short (s : string) :
  string_forallb is_safe_char (sanitize_for_path s) = true
  /\ (String.length (sanitize_for_path s) <= 150)%nat.
Proof.
  unfold sanitize_for_path.
  destruct (Nat.ltb_spec 150 (String.length (re_sub_unsafe false s))).
  - split.
    + rewrite !string_forallb_app, !string_forallb_substring;
        auto using re_sub_unsafe_safe, hexdigest_safe.
    + rewrite !string_length_app, !string_length_substring;
        rewrite ?hexdigest_length; simpl; lia.
  - split; [apply re_sub_unsafe_safe | lia].
Qed.

(** X4: [sanitize_for_path] is idempotent: a directory name it has
    produced is left as it is. *)
Theorem sanitize_for_path_idempotent (s : string) :
  sanitize_for_path (sanitize_for_path s) = sanitize_for_path s.
Proof.
  destruct (sanitize_for_path_safe_short s) as [Hsafe Hlen].
  by apply sanitize_for_path_id.
Qed.

Lemma re_sub_unsafe_merges (pre post : string) (a b : ascii) :
  is_safe_char a = false -> is_safe_char b = false ->
  forall in_run,
    re_sub_unsafe in_run (pre +:+ String a post)
    = re_sub_unsafe in_run (pre +:+ String b post)
    /\ re_sub_unsafe in_run (pre +:+ String a (String b post))
       = re_sub_unsafe in_run (pre +:+ String a post).
Proof.
  intros Ha Hb. induction pre as [|c pre IH]; intros in_run; simpl.
  - rewrite Ha, Hb. by destruct in_run.
  - destruct (IH false) as [IH1 IH2]. destruct (IH true) as [IH3 IH4].
    destruct (is_safe_char c); [by rewrite IH2, IH1|].
    destruct in_run; by rewrite IH4, IH3.
Qed.

(** X5: [sanitize_for_path] does not tell the characters outside
    [A-Za-z0-9._-] apart, nor one of them from a run of them: two
    execution ids that differ only there get the same directory name, and
    so the same job directory, log file and findings directory under the
    output directory. *)
Theorem sanitize_for_path_merges_unsafe (pre post : string) (a b : ascii)
    (out_dir : Path) (e1 e2 : FuzzExecution) :
  is_safe_char a = false -> is_safe_char b = false ->
  execution_id e1 = pre +:+ String a post ->
  execution_id e2 = pre +:+ String b post
  \/ execution_id e2 = pre +:+ String a (String b post) ->
  sanitize_for_path (execution_id e1) = sanitize_for_path (execution_id e2)
  /\ log_path (placeholder out_dir e1) = log_path (placeholder out_dir e2)
  /\ build_dir (placeholder out_dir e1) = build_dir (placeholder out_dir e2)
  /\ findings_dir (placeholder out_dir e1)
     = findings_dir (placeholder out_dir e2).
Proof.
  intros Ha Hb H1 H2.
  assert (sanitize_for_path (execution_id e1)
          = sanitize_for_path (execution_id e2)) as Hsame.
  { unfold sanitize_for_path.
    destruct (re_sub_unsafe_merges pre post a b Ha Hb false) as [Hm1 Hm2].
    rewrite H1. destruct H2 as [-> | ->]; [by rewrite Hm1 | by rewrite Hm2]. }
  split; [exact Hsame|]. unfold placeholder. simpl. by rewrite Hsame.
Qed.

Lemma sanitize_for_path_merges_unsafe_witness :
  sanitize_for_path "fuzz/a" = sanitize_for_path "fuzz:a"
  /\ log_path (placeholder ["out"] (mkExec "fuzz/a" "T#a" "3.2.5" "fuzz"))
     = log_path (placeholder ["out"] (mkExec "fuzz:a" "T#b" "3.2.5" "fuzz")).
Proof.
  destruct (sanitize_for_path_merges_unsafe "fuzz" "a" "/" ":" ["out"]
              (mkExec "fuzz/a" "T#a" "3.2.5" "fuzz")
              (mkExec "fuzz:a" "T#b" "3.2.5" "fuzz")
              eq_refl eq_refl eq_refl (or_introl eq_refl))
    as (Hname & Hlog & _).
  split; [exact Hname | exact Hlog].
Defined.

(** ** Discovery *)

Lemma stated_version_nonempty (nodes : list xml) : forall acc v,
  (forall a, acc = Some a -> a <> "") ->
  foldl (fun acc plugin =>
           let v := findtext ["version"] "" plugin in
           if decide (v = "") then acc else Some v) acc nodes = Some v ->
  v <> "".
Proof.
  induction nodes as [|p nodes IH]; intros acc v Hacc Hv; simpl in Hv.
  - by apply Hacc.
  - eapply IH; [|exact Hv]. intros a Ha.
    destruct (decide (findtext ["version"] "" p = "")); [by apply Hacc|].
    by simplify_eq.
Qed.

Lemma stated_version_unstated (nodes : list xml) : forall acc,
  Forall (fun q => findtext ["version"] "" q = "") nodes ->
  foldl (fun acc plugin =>
           let v := findtext ["version"] "" plugin in
           if decide (v = "") then acc else Some v) acc nodes = acc.
Proof.
  induction nodes as [|p nodes IH]; intros acc Hall; simpl; [done|].
  apply Forall_cons in Hall as [Hp Hall].
  rewrite decide_True by done. by apply IH.
Qed.

Lemma stated_version_last (pre post : list xml) (p : xml) :
  findtext ["version"] "" p <> "" ->
  Forall (fun q => findtext ["version"] "" q = "") post ->
  stated_version (pre ++ p :: post) = Some (findtext ["version"] "" p).
Proof.
  intros Hp Hpost. unfold stated_version.
  rewrite foldl_app. simpl. rewrite decide_False by done.
  by apply stated_version_unstated.
Qed.

Lemma declared_execution_wellformed version pid node e :
  declared_execution version pid node = Some e ->
  execution_id e <> "" /\ test_spec e <> ""
  /\ surefire_version e = version /\ profile_id e = pid.
Proof.
  unfold declared_execution. case_decide as Hok; [|done].
  intros [= <-]. simpl. tauto.
Qed.

Lemma read_pom_executions_Ok (pom_path : string) (root : xml) (pid : string)
    (execs : list FuzzExecution) :
  read_pom_executions pom_path root pid = Ok execs ->
  exists profile_node,
    find_profile root pid = Some profile_node
    /\ execs <> []
    /\ forall e, e ∈ execs ->
         execution_id e <> "" /\ test_spec e <> ""
         /\ surefire_version e
            = default "3.2.5" (stated_version (surefire_plugins profile_node))
         /\ profile_id e = pid.
Proof.
  unfold read_pom_executions. intros Hread.
  destruct (find_profile root pid) as [profile_node|]; [|done].
  exists profile_node. split; [done|].
  destruct (surefire_plugins profile_node) as [|sn0 sns] eqn:Hnodes; [done|].
  rewrite <- Hnodes in *.
  destruct (surefire_plugins profile_node ≫= _) as [|e0 es] eqn:Hexecs;
    [done|].
  injection Hread as <-. split; [done|].
  intros e He. rewrite <- Hexecs in He.
  apply list_elem_of_bind in He as (sn & He & _).
  apply list_elem_of_omap in He as (node & _ & He).
  by apply declared_execution_wellformed in He.
Qed.

(** X6: when [read_pom_executions] returns, the list is not empty, every
    execution in it has a non-empty id and a non-empty test selector and
    carries the requested profile id, and all of them carry one and the
    same non-empty surefire version. *)
Theorem read_pom_executions_wellformed (pom_path : string) (root : xml)
    (pid : string) (execs : list FuzzExecution) :
  read_pom_executions pom_path root pid = Ok execs ->
  execs <> []
  /\ exists version, version <> ""
     /\ forall e, e ∈ execs ->
          execution_id e <> "" /\ test_spec e <> ""
          /\ surefire_version e = version /\ profile_id e = pid.
Proof.
  intros Hread.
  destruct (read_pom_executions_Ok _ _ _ _ Hread)
    as (profile_node & _ & Hne & Hall).
  split; [done|].
  exists (default "3.2.5" (stated_version (surefire_plugins profile_node))).
  split; [|exact Hall].
  destruct (stated_version _) as [v|] eqn:Hv; simpl; [|done].
  eapply stated_version_nonempty; [|exact Hv]. done.
Qed.

Lemma read_pom_executions_wellformed_witness :
  exists execs,
    read_pom_executions "pom.xml" SamplePom.pom "fuzz" = Ok execs
    /\ execs <> []
    /\ forall e, e ∈ execs -> execution_id e <> "" /\ profile_id e = "fuzz".
Proof.
  destruct (read_pom_executions "pom.xml" SamplePom.pom "fuzz") as [execs|] eqn:Hread;
    [|vm_compute in Hread; discriminate].
  exists execs. split; [reflexivity|].
  destruct (read_pom_executions_wellformed "pom.xml" SamplePom.pom "fuzz" execs
              Hread)
    as (Hne & version & _ & Hall).
  split; [exact Hne|].
  intros e He. destruct (Hall e He) as (Hid & _ & _ & Hpid). by split.
Defined.

(** X7: [read_pom_executions] raises its "profile not found" error exactly
    when no [<profile>] under [<profiles>] has the requested id. *)
Theorem read_pom_executions_profile_not_found (pom_path : string)
    (root : xml) (pid : string) :
  read_pom_executions pom_path root pid
  = Raise (Exception ("Profile '" +:+ pid +:+ "' not found in " +:+ pom_path))
  <-> forall p, p ∈ findall ["profiles"; "profile"] [root] ->
        findtext ["id"] "" p <> pid.
Proof.
  unfold read_pom_executions, find_profile. split.
  - intros Hraise p Hp Hid.
    destruct (find _ _) as [profile_node|] eqn:Hfind.
    + destruct (surefire_plugins profile_node); [simpl in Hraise; done|].
      destruct (_ ≫= _); simpl in Hraise; done.
    + apply list_elem_of_In in Hp.
      pose proof (find_none _ _ Hfind _ Hp) as Hno. simpl in Hno.
      by apply bool_decide_eq_false in Hno.
  - intros Hnone. destruct (find _ _) as [profile_node|] eqn:Hfind; [|done].
    apply find_some in Hfind as [Hin Hid].
    apply bool_decide_eq_true in Hid. apply list_elem_of_In in Hin.
    by destruct (Hnone _ Hin).
Qed.

(** X8: the surefire version carried by the executions is not the one of
    the plugin that declares them: when no surefire plugin of the profile
    states a version it is 3.2.5 for all, and otherwise it is, for all
    executions of all plugins, the version of the last surefire plugin
    that states one. *)
Theorem surefire_version_is_shared (pom_path : string) (root : xml)
    (pid : string) (execs : list FuzzExecution) (profile_node : xml) :
  read_pom_executions pom_path root pid = Ok execs ->
  find_profile root pid = Some profile_node ->
  (Forall (fun q => findtext ["version"] "" q = "")
     (surefire_plugins profile_node) ->
   forall e, e ∈ execs -> surefire_version e = "3.2.5")
  /\ (forall pre p post,
        surefire_plugins profile_node = pre ++ p :: post ->
        findtext ["version"] "" p <> "" ->
        Forall (fun q => findtext ["version"] "" q = "") post ->
        forall e, e ∈ execs ->
          surefire_version e = findtext ["version"] "" p).
Proof.
  intros Hread Hprofile.
  destruct (read_pom_executions_Ok _ _ _ _ Hread)
    as (profile_node' & Hprofile' & _ & Hall).
  rewrite Hprofile in Hprofile'. injection Hprofile' as <-.
  split.
  - intros Hunstated e He. destruct (Hall e He) as (_ & _ & -> & _).
    unfold stated_version. by rewrite stated_version_unstated.
  - intros pre p post Hnodes Hp Hpost e He.
    destruct (Hall e He) as (_ & _ & -> & _).
    by rewrite Hnodes, stated_version_last.
Qed.

Lemma surefire_version_is_shared_witness :
  exists execs,
    read_pom_executions "pom.xml" SamplePom.versioned "fuzz" = Ok execs
    /\ forall e, e ∈ execs -> surefire_version e = "3.5.2".
Proof.
  destruct (read_pom_executions "pom.xml" SamplePom.versioned "fuzz")
    as [execs|] eqn:Hread; [|vm_compute in Hread; discriminate].
  destruct (find_profile SamplePom.versioned "fuzz")
    as [profile_node|] eqn:Hprofile; [|vm_compute in Hprofile; discriminate].
  exists execs. split; [reflexivity|].
  destruct (surefire_version_is_shared _ _ _ _ _ Hread Hprofile)
    as [_ Hlast].
  vm_compute in Hprofile. injection Hprofile as <-.
  intros e He.
  refine (Hlast [SamplePom.surefire] SamplePom.second_surefire [] _ _ _ e He).
  - vm_compute. reflexivity.
  - vm_compute. discriminate.
  - constructor.
Defined.

(** ** One job, continued: files, invocations and environments *)

Section JobFiles.

Variable text_of_line : string -> string.

(** What [stream_process] does to the files, to the list of invocations
    and to the fields that identify the job. *)
Lemma stream_process_effect clk cmd cwd env p st :
  let r := stream_process text_of_line clk cmd cwd env p st in
  invoked r.1 = invoked st ++ [(cmd, cwd, env)]
  /\ build_dir (res r.1) = build_dir (res st)
  /\ work r.1 = work st
  /\ execution (res r.1) = execution (res st)
  /\ findings_dir (res r.1) = findings_dir (res st)
  /\ log_path (res r.1) = log_path (res st)
  /\ match p with
     | SpawnFails e =>
         r.2 = Raise e /\ log r.1 = log st
         /\ exit_code (res r.1) = exit_code (res st)
         /\ job_dir r.1 = job_dir st
     | Spawned lines (Abort e) =>
         r.2 = Raise e /\ log r.1 = Some (upto_eof lines)
         /\ exit_code (res r.1) = exit_code (res st)
         /\ job_dir r.1 = true
     | Spawned lines (Exit code) =>
         r.2 = Ok tt /\ log r.1 = Some (upto_eof lines)
         /\ exit_code (res r.1) = Some code
         /\ job_dir r.1 = true
     end.
Proof.
  destruct p as [e | lines [code | e]]; cbv zeta.
  - by rewrite stream_process_unspawned.
  - rewrite stream_process_spawned. cbv zeta. job_fields.
    repeat split; by destruct (upto_eof lines).
  - rewrite stream_process_spawned. cbv zeta. job_fields.
    repeat split; by destruct (upto_eof lines).
Qed.

(** The [except] clauses, entered with the log directory in place. *)
Lemma on_run_fault_effect clk e st :
  job_dir st = true ->
  let r := on_run_fault clk e st in
  invoked r.1 = invoked st
  /\ work r.1 = work st
  /\ execution (res r.1) = execution (res st)
  /\ findings_dir (res r.1) = findings_dir (res st)
  /\ log_path (res r.1) = log_path (res st)
  /\ log r.1 = Some (default [] (log st) ++ fault_note e).
Proof.
  intros Hdir. destruct e as [what|]; cbv zeta;
    unfold on_run_fault, bind, set_status, time_time, modify_res,
      append_log, write_log, raise;
    simpl; rewrite Hdir; simpl; rewrite <- ?app_assoc; done.
Qed.

Ltac files_in Hrun :=
  cbn [res job_dir work log invoked history ticks fst snd
       status execution build_dir findings_dir log_path start_time end_time
       exit_code command last_lines surefire_report_dir
       with_status with_build_dir with_start_time with_end_time
       with_exit_code with_command with_last_lines
       with_surefire_report_dir] in Hrun.

Ltac files_step Hrun :=
  first [ rewrite bind_set_status in Hrun | rewrite bind_modify_res in Hrun
        | rewrite bind_get_res in Hrun ];
  files_in Hrun.

Ltac files_stream Hrun H :=
  match type of Hrun with
  | context [stream_process ?t ?clk ?cmd ?cwd ?env ?p ?s] =>
      pose proof (stream_process_effect clk cmd cwd env p s) as H;
      cbv zeta in H;
      let r := fresh "r" in
      let E := fresh "E" in
      remember (stream_process t clk cmd cwd env p s) as r eqn:E in *;
      clear E; destruct r as [? ?];
      files_in H; files_in Hrun
  end.

Ltac files_rewrite :=
  repeat match goal with
    | H : invoked ?x = _ |- context [invoked ?x] => rewrite H
    | H : log ?x = _ |- context [log ?x] => rewrite H
    | H : work ?x = _ |- context [work ?x] => rewrite H
    | H : execution (res ?x) = _ |- context [execution (res ?x)] => rewrite H
    | H : findings_dir (res ?x) = _ |- context [findings_dir (res ?x)] =>
        rewrite H
    | H : log_path (res ?x) = _ |- context [log_path (res ?x)] => rewrite H
    | H : job_dir ?x = _ |- context [job_dir ?x] => rewrite H
    end.

Ltac files_close Hrun :=
  injection Hrun as <- <-; files_rewrite; job_fields;
  repeat case_decide; simplify_eq;
  rewrite <- ?app_assoc; cbn [app default]; rewrite ?app_nil_r;
  repeat split.

Ltac files_rest Hrun w :=
  let Hc := fresh "Hc" in
  let Hr := fresh "Hr" in
  let Hf := fresh "Hf" in
  rewrite bind_eq in Hrun; files_stream Hrun Hc;
  destruct (compile_proc w) as [? | ? [code | ?]];
  destruct_and!; subst;
  [ files_close Hrun
  | files_step Hrun;
    match goal with
    | H : exit_code (res ?x) = _ |- _ => rewrite H in Hrun
    end;
    destruct (decide (Some code = Some 0)) as [Hzero | Hnonzero];
    [ injection Hzero as ->;
      do 2 files_step Hrun; unfold try_except in Hrun;
      match goal with
      | H : build_dir (res ?x) = _ |- _ => rewrite H in Hrun
      end;
      files_stream Hrun Hr;
      destruct (run_proc w) as [? | ? [? | ?]];
      destruct_and!; subst;
      [ | files_close Hrun | ];
      match type of Hrun with
      | on_run_fault ?clk ?e ?s = _ =>
          assert (job_dir s = true) as Hf by (files_rewrite; reflexivity);
          apply (on_run_fault_effect clk e) in Hf;
          cbv zeta in Hf; rewrite Hrun in Hf; cbn [fst snd] in Hf;
          rewrite ?decide_True by reflexivity;
          destruct_and!; subst;
          files_rewrite; job_fields;
          rewrite <- ?app_assoc; cbn [app default];
          repeat split
      end
    | unfold ret in Hrun; files_close Hrun ]
  | files_close Hrun ].

(** [run_job] in closed form, for the processes it starts (with their
    working directory and environment), the log file, the work tree and
    the fields that identify the job. *)
Lemma run_job_files w base mvnw e duration env_base batch rss xmx st :
  let final :=
    run_job text_of_line w base mvnw e duration env_base batch rss xmx st in
  let work_dir := path_parent (log_path (res st)) /: "work" in
  let c1 := (compile_command mvnw e batch, work_dir, compile_env env_base) in
  let c2 :=
    (build_maven_command mvnw e (work_dir /: "target") duration batch rss
       xmx,
     work_dir, fuzz_env env_base (findings_dir (res st)) rss) in
  invoked final.1 = invoked st ++ expected_invoked w c1 c2 st
  /\ log final.1 = expected_log w st
  /\ work final.1 = expected_work w base st
  /\ same_identity st final.1.
Proof.
  cbv zeta.
  destruct (run_job _ _ _ _ _ _ _ _ _ _ st) as [fin out] eqn:Hrun.
  unfold expected_invoked, expected_log, expected_work, isolation_ok,
    same_identity.
  cbn [fst snd].
  unfold run_job in Hrun.
  files_step Hrun. files_step Hrun.
  rewrite bind_eq in Hrun. unfold isolate at 1 in Hrun. files_in Hrun.
  destruct (work st) eqn:wk; [| destruct (copy_result w) eqn:copied].
  - do 3 files_step Hrun. files_rest Hrun w.
  - unfold set_work in Hrun. files_in Hrun.
    do 3 files_step Hrun. files_rest Hrun w.
  - injection Hrun as <- <-. job_fields. now rewrite app_nil_r.
  - unfold bind, set_work, raise in Hrun. files_in Hrun.
    injection Hrun as <- <-. job_fields. now rewrite app_nil_r.
Qed.

End JobFiles.

Section JobExtras.

Variable text_of_line : string -> string.

Lemma compile_env_lookup (env_base : gmap string string) (k : string) :
  compile_env env_base !! k =
  if bool_decide
       (k ∈ ["JAZZER_FUZZ"; "JAZZER_FLAGS"; "ASAN_OPTIONS";
             "JAVA_TOOL_OPTIONS"])
  then None else env_base !! k.
Proof.
  unfold compile_env. cbn [foldl]. rewrite !lookup_delete.
  case_bool_decide as Hk.
  - rewrite !elem_of_cons, elem_of_nil in Hk.
    destruct Hk as [-> | [-> | [-> | [-> | []]]]]; repeat case_decide; done.
  - rewrite !elem_of_cons, elem_of_nil in Hk.
    repeat case_decide; try done; subst k; exfalso; apply Hk; auto 10.
Qed.

(** X9: once the workspace copy is there, the first process that [run_job]
    starts is the compile command, run in the job's own [work] directory
    (beside its [build.log]) with an environment that holds none of
    JAZZER_FUZZ, JAZZER_FLAGS, ASAN_OPTIONS and JAVA_TOOL_OPTIONS and
    agrees with the inherited environment on every other variable. *)
Theorem compile_phase_environment w base mvnw e duration env_base batch rss
    xmx st :
  isolation_ok w st = true ->
  let final :=
    run_job text_of_line w base mvnw e duration env_base batch rss xmx st in
  exists env,
    invoked final.1 !! length (invoked st) =
      Some (compile_command mvnw e batch,
            path_parent (log_path (res st)) /: "work", env)
    /\ (forall k,
          k ∈ ["JAZZER_FUZZ"; "JAZZER_FLAGS"; "ASAN_OPTIONS";
               "JAVA_TOOL_OPTIONS"] -> env !! k = None)
    /\ (forall k,
          k ∉ ["JAZZER_FUZZ"; "JAZZER_FLAGS"; "ASAN_OPTIONS";
               "JAVA_TOOL_OPTIONS"] -> env !! k = env_base !! k).
Proof.
  intros Hiso final.
  destruct (run_job_files text_of_line w base mvnw e duration env_base batch
              rss xmx st) as (Hinv & _).
  fold final in Hinv. exists (compile_env env_base).
  split; [| split].
  - rewrite Hinv. unfold expected_invoked. rewrite Hiso.
    rewrite lookup_app_r by lia. rewrite Nat.sub_diag.
    destruct (compile_proc w) as [? | ? [code | ?]]; try reflexivity.
    by destruct (decide (code = 0)).
  - intros k Hk. rewrite compile_env_lookup. by rewrite bool_decide_true.
  - intros k Hk. rewrite compile_env_lookup. by rewrite bool_decide_false.
Qed.

Lemma fuzz_env_lookup (env_base : gmap string string) (findings : Path)
    (rss : Z) (k : string) :
  fuzz_env env_base findings rss !! k =
  if decide (k = "JAZZER_FLAGS") then Some ("-rss_limit_mb=" +:+ pretty rss)
  else if decide (k = "JAZZER_FUZZ")
       then Some (default "1" (env_base !! "JAZZER_FUZZ"))
  else if decide (k = "JAZZER_FINDINGS_DIR") then Some (path_str findings)
  else env_base !! k.
Proof.
  unfold fuzz_env, setdefault.
  rewrite (lookup_insert_ne env_base "JAZZER_FINDINGS_DIR" "JAZZER_FUZZ")
    by done.
  destruct (decide (k = "JAZZER_FLAGS")) as [-> | Hflags].
  { by rewrite lookup_insert_eq. }
  rewrite lookup_insert_ne by done.
  destruct (decide (k = "JAZZER_FUZZ")) as [-> | Hfuzz].
  { destruct (env_base !! "JAZZER_FUZZ") as [v|] eqn:Hv; simpl.
    - by rewrite lookup_insert_ne.
    - by rewrite lookup_insert_eq. }
  destruct (decide (k = "JAZZER_FINDINGS_DIR")) as [-> | Hfind].
  { destruct (env_base !! "JAZZER_FUZZ");
      [| rewrite lookup_insert_ne by done]; by rewrite lookup_insert_eq. }
  destruct (env_base !! "JAZZER_FUZZ");
    [| rewrite lookup_insert_ne by done]; by rewrite lookup_insert_ne.
Qed.

(** X10: when the workspace copy is there and the compile phase exits
    with 0, the second process that [run_job] starts is the surefire
    command, run in the same [work] directory.  Its environment is the
    inherited one except for three variables: JAZZER_FLAGS is set to the
    RSS limit (whatever it was), and the command line passes the same
    value; JAZZER_FINDINGS_DIR is the findings directory of the job; and
    JAZZER_FUZZ keeps an inherited value and is 1 without one. *)
Theorem run_phase_environment w base mvnw e duration env_base batch rss xmx
    st lines :
  isolation_ok w st = true ->
  compile_proc w = Spawned lines (Exit 0) ->
  let final :=
    run_job text_of_line w base mvnw e duration env_base batch rss xmx st in
  let work_dir := path_parent (log_path (res st)) /: "work" in
  exists cmd env,
    invoked final.1 !! S (length (invoked st)) = Some (cmd, work_dir, env)
    /\ cmd = build_maven_command mvnw e (work_dir /: "target") duration
               batch rss xmx
    /\ env !! "JAZZER_FLAGS" = Some ("-rss_limit_mb=" +:+ pretty rss)
    /\ "-Denv.JAZZER_FLAGS=" +:+ "-rss_limit_mb=" +:+ pretty rss ∈ cmd
    /\ env !! "JAZZER_FINDINGS_DIR" = Some (path_str (findings_dir (res st)))
    /\ env !! "JAZZER_FUZZ" = Some (default "1" (env_base !! "JAZZER_FUZZ"))
    /\ (forall k,
          k ∉ ["JAZZER_FLAGS"; "JAZZER_FINDINGS_DIR"; "JAZZER_FUZZ"] ->
          env !! k = env_base !! k).
Proof.
  intros Hiso Hcompile final work_dir.
  destruct (run_job_files text_of_line w base mvnw e duration env_base batch
              rss xmx st) as (Hinv & _).
  fold final work_dir in Hinv.
  eexists _, (fuzz_env env_base (findings_dir (res st)) rss).
  split; [|split; [reflexivity|]].
  - rewrite Hinv. unfold expected_invoked. rewrite Hiso, Hcompile.
    rewrite decide_True by done.
    rewrite lookup_app_r by lia.
    by replace (S (length (invoked st)) - length (invoked st))%nat
      with 1%nat by lia.
  - split; [by rewrite fuzz_env_lookup|]. split.
    { unfold build_maven_command. rewrite !elem_of_app, !elem_of_cons.
      right. right. right. by left. }
    split; [by rewrite fuzz_env_lookup|].
    split; [by rewrite fuzz_env_lookup|].
    intros k Hk. rewrite !elem_of_cons, elem_of_nil in Hk.
    rewrite fuzz_env_lookup. repeat case_decide; try done; tauto.
Qed.

(** X11: [build.log] holds the output of the last phase only.  When the
    run phase has started its process, nothing of the compile output is
    left in the file: it holds the lines of the run phase up to end of
    file, followed by the note of the [except] clause when the run was
    interrupted. *)
Theorem log_holds_last_phase w base mvnw e duration env_base batch rss xmx
    st lines1 lines2 fin :
  isolation_ok w st = true ->
  compile_proc w = Spawned lines1 (Exit 0) ->
  run_proc w = Spawned lines2 fin ->
  let final :=
    run_job text_of_line w base mvnw e duration env_base batch rss xmx st in
  log final.1
  = Some (upto_eof lines2
            ++ match fin with Exit _ => [] | Abort err => fault_note err end).
Proof.
  intros Hiso Hcompile Hrun final.
  destruct (run_job_files text_of_line w base mvnw e duration env_base batch
              rss xmx st) as (_ & Hlog & _).
  fold final in Hlog. rewrite Hlog. unfold expected_log.
  rewrite Hiso, Hcompile, Hrun, decide_True by done.
  destruct fin; by rewrite ?app_nil_r.
Qed.

(** X12: a [work] directory that exists is used as it is: [run_job]
    leaves its tree alone and does not read the base directory, so that
    the job runs the same whatever the base directory holds and whatever
    a copy of it would meet. *)
Theorem existing_work_tree_is_reused w base mvnw e duration env_base batch
    rss xmx st t tree' copy' :
  work st = Some t ->
  let final :=
    run_job text_of_line w base mvnw e duration env_base batch rss xmx st in
  work final.1 = Some t
  /\ run_job text_of_line
       (mkEnv tree' copy' (compile_proc w) (run_proc w) (clock w))
       base mvnw e duration env_base batch rss xmx st
     = final.
Proof.
  intros Hwork final.
  destruct (run_job_files text_of_line w base mvnw e duration env_base batch
              rss xmx st) as (_ & _ & Hw & _).
  fold final in Hw. rewrite Hw. unfold expected_work. rewrite Hwork.
  split; [done|].
  unfold final, run_job.
  rewrite !bind_set_status, !bind_get_res, !(bind_eq (isolate _ _)).
  unfold isolate. cbn [work]. rewrite Hwork. reflexivity.
Qed.

(** X13: [run_job] never changes the execution that a result stands for,
    nor its findings directory, nor the path of its log. *)
Theorem run_job_keeps_identity w base mvnw e duration env_base batch rss xmx
    st :
  let final :=
    run_job text_of_line w base mvnw e duration env_base batch rss xmx st in
  execution (res final.1) = execution (res st)
  /\ findings_dir (res final.1) = findings_dir (res st)
  /\ log_path (res final.1) = log_path (res st).
Proof.
  intros final.
  destruct (run_job_files text_of_line w base mvnw e duration env_base batch
              rss xmx st) as (_ & _ & _ & Hid).
  exact Hid.
Qed.

(** X14: an exception in the run phase does not leave [run_job]: the job
    returns with status [failed], still carrying the exit code 0 of its
    compile phase, and the log ends with the note of the [except]
    clause. *)
Theorem run_phase_exception_is_absorbed w base mvnw e duration env_base
    batch rss xmx st lines what :
  isolation_ok w st = true ->
  compile_proc w = Spawned lines (Exit 0) ->
  run_proc w = SpawnFails (Exception what)
  \/ (exists lines', run_proc w = Spawned lines' (Abort (Exception what))) ->
  let final :=
    run_job text_of_line w base mvnw e duration env_base batch rss xmx st in
  final.2 = Ok tt
  /\ status (res final.1) = "failed"
  /\ exit_code (res final.1) = Some 0
  /\ exists written,
       log final.1
       = Some (written ++ [nl +:+ nl +:+ "[Runner Exception]" +:+ nl; what]).
Proof.
  intros Hiso Hcompile Hrun final.
  destruct (run_job_facts text_of_line w base mvnw e duration env_base batch
              rss xmx st) as (Ho & _ & _ & Hs & Hx & _).
  destruct (run_job_files text_of_line w base mvnw e duration env_base batch
              rss xmx st) as (_ & Hlog & _).
  fold final in Ho, Hs, Hx, Hlog. rewrite Ho, Hs, Hx, Hlog.
  unfold expected_facts, expected_log, isolation_ok in *.
  rewrite Hcompile.
  assert (match work st with
          | Some _ => inl (job_dir st)
          | None =>
              match copy_result w with
              | CopyDone => inl true
              | CopyFailsBefore what0 => inr (what0, job_dir st)
              | CopyFailsDuring what0 _ => inr (what0, true)
              end
          end = (inl (match work st with Some _ => job_dir st | None => true end)
                 : bool + string * bool)) as ->.
  { destruct (work st); [done|]. by destruct (copy_result w). }
  rewrite Hiso. rewrite !decide_True by done.
  destruct Hrun as [-> | [lines' ->]]; simpl; eauto.
Qed.

End JobExtras.

Lemma compile_phase_environment_witness :
  isolation_ok Sample.passes (Sample.fresh Sample.decompress) = true
  /\ exists env,
       invoked (Sample.run Sample.passes).1
         !! length (invoked (Sample.fresh Sample.decompress))
       = Some (compile_command "./mvnw" Sample.decompress true,
               path_parent (log_path (res (Sample.fresh Sample.decompress)))
                 /: "work",
               env)
       /\ env !! "JAZZER_FUZZ" = None.
Proof.
  split; [reflexivity|].
  destruct (compile_phase_environment (fun line => line) Sample.passes
              ["repo"] "./mvnw" Sample.decompress "5s" ∅ true 1024 700
              (Sample.fresh Sample.decompress) eq_refl)
    as (env & Hfirst & Hnone & _).
  exists env. split; [exact Hfirst|].
  apply Hnone, elem_of_cons. by left.
Defined.

Lemma run_phase_environment_witness :
  isolation_ok Sample.passes (Sample.fresh Sample.decompress) = true
  /\ exists cmd env,
       invoked (Sample.run Sample.passes).1
         !! S (length (invoked (Sample.fresh Sample.decompress)))
       = Some (cmd,
               path_parent (log_path (res (Sample.fresh Sample.decompress)))
                 /: "work",
               env)
       /\ env !! "JAZZER_FLAGS" = Some ("-rss_limit_mb=" +:+ pretty 1024)
       /\ "-Denv.JAZZER_FLAGS=" +:+ "-rss_limit_mb=" +:+ pretty 1024 ∈ cmd.
Proof.
  split; [reflexivity|].
  destruct (run_phase_environment (fun line => line) Sample.passes
              ["repo"] "./mvnw" Sample.decompress "5s" ∅ true 1024 700
              (Sample.fresh Sample.decompress) _ eq_refl eq_refl)
    as (cmd & env & Hsecond & _ & Hflags & Hcmd & _).
  exists cmd, env. split; [exact Hsecond|]. split; [exact Hflags | exact Hcmd].
Defined.

Lemma log_holds_last_phase_witness :
  isolation_ok Sample.cancelled_mid_run (Sample.fresh Sample.decompress)
  = true
  /\ log (Sample.run Sample.cancelled_mid_run).1
     = Some (upto_eof (Sample.numbered 3) ++ fault_note CancelledError).
Proof.
  split; [reflexivity|].
  exact (log_holds_last_phase (fun line => line) Sample.cancelled_mid_run
           ["repo"] "./mvnw" Sample.decompress "5s" ∅ true 1024 700
           (Sample.fresh Sample.decompress) _ _ _ eq_refl eq_refl eq_refl).
Defined.

Lemma existing_work_tree_is_reused_witness :
  work (Sample.left_over Sample.decompress)
  = Some [File "pom.xml"; Dir "target" [File "classes"]]
  /\ work (run_job (fun line => line) Sample.unreadable_base ["repo"]
             "./mvnw" Sample.decompress "5s" ∅ true 1024 700
             (Sample.left_over Sample.decompress)).1
     = Some [File "pom.xml"; Dir "target" [File "classes"]].
Proof.
  split; [reflexivity|].
  exact (proj1 (existing_work_tree_is_reused (fun line => line)
                  Sample.unreadable_base ["repo"] "./mvnw" Sample.decompress
                  "5s" ∅ true 1024 700 (Sample.left_over Sample.decompress)
                  _ [] CopyDone eq_refl)).
Defined.

Lemma run_phase_exception_is_absorbed_witness :
  isolation_ok Sample.run_cannot_start (Sample.fresh Sample.decompress)
  = true
  /\ (Sample.run Sample.run_cannot_start).2 = Ok tt
  /\ status (res (Sample.run Sample.run_cannot_start).1) = "failed"
  /\ exit_code (res (Sample.run Sample.run_cannot_start).1) = Some 0.
Proof.
  split; [reflexivity|].
  destruct (run_phase_exception_is_absorbed (fun line => line)
              Sample.run_cannot_start ["repo"] "./mvnw" Sample.decompress
              "5s" ∅ true 1024 700 (Sample.fresh Sample.decompress) _
              "OSError" eq_refl eq_refl (or_introl eq_refl))
    as (Hok & Hstatus & Hcode & _).
  split; [exact Hok|]. split; [exact Hstatus | exact Hcode].
Defined.

(** ** The scheduler and the report, continued *)

Lemma count_verdicts (l : list (string * JobResult)) :
  (forall kr, kr ∈ l -> verdict_status kr.2) ->
  (length (filter (fun kr => status kr.2 = "passed") l)
   + length (filter (fun kr => status kr.2 = "failed") l))%nat
  = length l.
Proof.
  induction l as [|[k r] l IH]; intros Hall; [done|].
  assert (forall kr, kr ∈ l -> verdict_status kr.2) as Hrest
    by (intros kr Hkr; apply Hall, elem_of_cons; by right).
  specialize (IH Hrest).
  assert (verdict_status r) as Hr
    by (apply (Hall (k, r)), elem_of_cons; by left).
  rewrite !filter_cons. simpl.
  destruct Hr as [Hp | Hf].
  - rewrite decide_True, decide_False by (rewrite ?Hp; done). simpl. lia.
  - rewrite decide_False, decide_True by (rewrite ?Hf; done). simpl. lia.
Qed.

Section SchedulerExtras.

Variable text_of_line : string -> string.

(** X15: the report that a run returns never counts a cancelled job:
    whenever [main_async] returns results, every entry is [passed] or
    [failed], so that in the summary [cancelled] is 0 and [passed] and
    [failed] add up to [total]; and the value returned is 0 exactly when
    the summary counts no failure, 2 otherwise. *)
Theorem returned_report_counts (args : Args) (pom_execs : list FuzzExecution)
    (W : world) (rc : Z) (results : gmap string JobResult) (report : Report) :
  main_async text_of_line args pom_execs W
  = Return rc (Some (results, report)) ->
  (forall k r, results !! k = Some r ->
     status r = "passed" \/ status r = "failed")
  /\ cancelled (summary report) = 0%nat
  /\ (passed (summary report) + failed (summary report))%nat
     = total (summary report)
  /\ (rc = 0 <-> failed (summary report) = 0%nat)
  /\ (rc <> 0 -> rc = 2).
Proof.
  intros Hmain.
  destruct (main_async_returns text_of_line args pom_execs _ W rc _ eq_refl
              Hmain)
    as [(_ & _ & ?) | [(_ & _ & _ & ?) |
        (_ & _ & _ & _ & results' & n & Hout & Hrc & _ & Hv & _)]];
    [discriminate.. |].
  injection Hout as <- ->.
  match goal with
  | |- context [make_report_json ?a ?b ?c ?d ?e ?f ?g ?h ?i ?j] =>
      destruct (make_report_json_summary a b c d e f g h i j)
        as (Ht & Hp & Hf & Hc & _)
  end.
  cbv zeta in Ht, Hp, Hf, Hc. rewrite Ht, Hp, Hf, Hc.
  split; [exact Hv|]. split; [|split; [|split]].
  - apply count_status_zero. intros k r Hk Hs.
    destruct (Hv _ _ Hk) as [Hp' | Hf']; congruence.
  - unfold count_status. rewrite count_verdicts.
    + apply length_map_to_list.
    + intros [k r] Hkr. apply elem_of_map_to_list in Hkr. eauto.
  - rewrite Hrc. by destruct (decide (count_status "failed" results = 0%nat)).
  - rewrite Hrc. by destruct (decide (count_status "failed" results = 0%nat)).
Qed.

Lemma job_start_execution args W execs e :
  NoDup (execution_id <$> execs) -> e ∈ execs ->
  execution
    (res (job_start args W (initial_results (args_out_dir args) execs) e))
  = e.
Proof.
  intros Hnd He. unfold job_start, initial_results. cbn [res].
  by rewrite (build_lookup execution_id (placeholder (args_out_dir args))
                execs ∅ e Hnd He).
Qed.

(** X16: total coverage, where the code has it.  With pairwise distinct,
    non-empty ids, at least one permit, every task completing, no task
    cancelled, the log of every raising task open to the handler's note
    and the reports written, [main_async] returns results with exactly
    one entry per execution, filed under its id and standing for that
    execution, and the report lists as many tests. *)
Theorem total_coverage_on_completion (args : Args)
    (pom_execs execs : list FuzzExecution) (W : world) :
  filter_executions pom_execs (args_filter args) = execs ->
  let results0 := initial_results (args_out_dir args) execs in
  args_list args = false -> execs <> [] -> 0 < args_jobs args ->
  NoDup (execution_id <$> execs) -> "" ∉ execution_id <$> execs ->
  (forall k, k ∈ execution_id <$> execs -> k ∈ completion W) ->
  (forall e, e ∈ execs ->
     drainable (note_fault W) (execution_id e)
       (run_one text_of_line args W results0 e)) ->
  report_fault W = None ->
  exists rc results report,
    main_async text_of_line args pom_execs W
    = Return rc (Some (results, report))
    /\ size results = length execs
    /\ (forall k, is_Some (results !! k) <-> k ∈ execution_id <$> execs)
    /\ (forall e, e ∈ execs ->
          exists r, results !! execution_id e = Some r /\ execution r = e)
    /\ length (tests report) = length execs.
Proof.
  intros Hfilter results0 Hlist Hexecs Hjobs Hnd Hne Hdone Hdrain Hreport.
  destruct (main_async_total text_of_line args pom_execs execs W Hfilter
              Hlist Hexecs Hjobs Hnd Hne Hdone Hdrain Hreport)
    as (rc & results & report & Hmain & _ & Hsize & Hdom & Hentry).
  assert (forall e, e ∈ execs ->
            exists r, results !! execution_id e = Some r /\ execution r = e)
    as Heach.
  { intros e He. specialize (Hentry e He). fold results0 in Hentry.
    destruct (run_one text_of_line args W results0 e).2 eqn:Hout.
    - eexists. split; [exact Hentry|].
      unfold run_one.
      match goal with
      | |- context [run_job ?t ?w ?b ?m ?x ?d ?eb ?ba ?r ?y ?s] =>
          destruct (run_job_files t w b m x d eb ba r y s)
            as (_ & _ & _ & Hid & _)
      end.
      cbv zeta in Hid. rewrite Hid. by apply job_start_execution.
    - destruct Hentry as (t & Hentry). eexists. split; [exact Hentry|done]. }
  exists rc, results, report. split; [exact Hmain|]. split; [exact Hsize|].
  split; [|split; [exact Heach|]].
  - intros k. split; [apply Hdom|].
    intros Hk. apply list_elem_of_fmap in Hk as (e & -> & He).
    destruct (Heach e He) as (r & -> & _). eauto.
  - pose proof (main_async_returns text_of_line args pom_execs execs W rc _
                  Hfilter Hmain)
      as [(_ & _ & ?) | [(_ & _ & _ & ?) |
          (_ & _ & _ & _ & results' & n & Hout & _)]];
      [discriminate.. |].
    injection Hout as <- ->.
    match goal with
    | |- context [make_report_json ?a ?b ?c ?d ?e ?f ?g ?h ?i ?j] =>
        destruct (make_report_json_summary a b c d e f g h i j)
          as (_ & _ & _ & _ & Htests & _)
    end.
    cbv zeta in Htests. rewrite Htests. unfold sorted_items.
    by rewrite length_map, merge_sort_Permutation, length_map_to_list.
Qed.

(** X17: an isolation failure whose log can be written is fatal for its
    job only.  When the workspace copy of a job fails while the directory
    of its log is there (the copy broke after creating its destination,
    or the directory existed before) and the handler's note can be
    appended, no process is launched for that job, its entry ends with
    status [failed] and exit code -1, and the run returns 2 with one
    entry per execution, each sibling that returned keeping the result of
    its own job. *)
Theorem logged_isolation_failure_fails_one_job (args : Args)
    (pom_execs execs : list FuzzExecution) (W : world) (e : FuzzExecution) :
  filter_executions pom_execs (args_filter args) = execs ->
  let results0 := initial_results (args_out_dir args) execs in
  args_list args = false -> 0 < args_jobs args ->
  NoDup (execution_id <$> execs) -> "" ∉ execution_id <$> execs ->
  e ∈ execs ->
  (forall k, k ∈ execution_id <$> execs -> k ∈ completion W) ->
  work0 W (execution_id e) = None ->
  match copy_result (envs W (execution_id e)) with
  | CopyDone => False
  | CopyFailsBefore _ => job_dir0 W (execution_id e) = true
  | CopyFailsDuring _ _ => True
  end ->
  note_fault W (execution_id e) = None ->
  report_fault W = None ->
  (forall e', e' ∈ execs -> e' <> e ->
     drainable (note_fault W) (execution_id e')
       (run_one text_of_line args W results0 e')) ->
  launched (job_start args W results0 e)
    (run_one text_of_line args W results0 e).1 = []
  /\ exists rc results report r,
      main_async text_of_line args pom_execs W
      = Return rc (Some (results, report))
      /\ rc = 2
      /\ size results = length execs
      /\ results !! execution_id e = Some r
      /\ status r = "failed" /\ exit_code r = Some (-1) /\ execution r = e
      /\ (forall e', e' ∈ execs ->
            (run_one text_of_line args W results0 e').2 = Ok tt ->
            results !! execution_id e'
            = Some (res (run_one text_of_line args W results0 e').1)).
Proof.
  intros Hfilter results0 Hlist Hjobs Hnd Hne He Hdone Hwork Hcopy Hnote
    Hreport Hsib.
  subst results0.
  assert (copy_result (envs W (execution_id e)) <> CopyDone) as Hfails
    by (intros Heq; now rewrite Heq in Hcopy).
  pose proof (isolation_failure_stops_job text_of_line
                (envs W (execution_id e)) (args_base_dir args)
                (args_mvn args) e (args_duration args) (os_environ W)
                (negb (args_no_batch args)) (args_rss_limit_mb args)
                (args_xmx_mb args)
                (job_start args W
                   (initial_results (args_out_dir args) execs) e)
                Hwork Hfails) as Hjob.
  cbv zeta in Hjob.
  fold (run_one text_of_line args W
          (initial_results (args_out_dir args) execs) e) in Hjob.
  destruct Hjob as ((what & Hraise) & Hnone & _ & Hdir).
  split; [exact Hnone|].
  assert (drainable (note_fault W) (execution_id e)
            (run_one text_of_line args W
               (initial_results (args_out_dir args) execs) e)) as Hmine.
  { unfold drainable. rewrite Hraise, Hdir. split; [|exact Hnote].
    destruct (copy_result (envs W (execution_id e))); simpl in *; done. }
  destruct (main_async_total text_of_line args pom_execs execs W Hfilter
              Hlist)
    as (rc & results & report & Hmain & Hrc & Hsize & _ & Heach);
    try assumption.
  { intros ->. now apply elem_of_nil in He. }
  { intros e' He'. destruct (decide (e' = e)) as [-> | Hother]; auto. }
  pose proof (Heach _ He) as Hentry. rewrite Hraise in Hentry.
  destruct Hentry as (t & Hentry).
  exists rc, results, report,
    (failed_result (args_out_dir args) e (mclock W 0) t).
  split; [exact Hmain|]. split; [|split; [exact Hsize|]].
  - rewrite Hrc. rewrite decide_False; [reflexivity|].
    rewrite count_status_zero. intros Hzero.
    now apply (Hzero _ _ Hentry).
  - split; [exact Hentry|]. do 3 (split; [reflexivity|]).
    intros e' He' Hok. specialize (Heach _ He'). now rewrite Hok in Heach.
Qed.

(** X18: the tests of the report are the results in ascending order of
    their keys, one test per result. *)
Theorem report_tests_in_key_order (results : gmap string JobResult)
    (project profile duration : string) (concurrency : Z) (mvn_cmd : string)
    (out_dir base_dir : Path) (clk : nat -> Z) (n : nat) :
  exists items,
    items ≡ₚ map_to_list results
    /\ Sorted (fun a b => String.leb a.1 b.1 = true) items
    /\ tests (make_report_json results project profile duration concurrency
                mvn_cmd out_dir base_dir clk n)
       = map (fun kr => test_entry base_dir kr.2) items.
Proof.
  exists (sorted_items results).
  split; [apply merge_sort_Permutation|]. split.
  - assert (Total key_le) as Htotal
      by (intros a b; apply String.leb_total).
    apply (Sorted_merge_sort key_le).
  - by destruct (make_report_json_summary results project profile duration
                   concurrency mvn_cmd out_dir base_dir clk n)
      as (_ & _ & _ & _ & Htests & _).
Qed.

End SchedulerExtras.

Lemma returned_report_counts_witness :
  exists rc results report,
    Sample.main Sample.compile_fails = Return rc (Some (results, report))
    /\ cancelled (summary report) = 0%nat
    /\ (passed (summary report) + failed (summary report))%nat
       = total (summary report).
Proof.
  destruct (Sample.main Sample.compile_fails)
    as [rc [[results report]|] | |] eqn:Hmain;
    try (vm_compute in Hmain; discriminate).
  exists rc, results, report. split; [reflexivity|].
  destruct (returned_report_counts (fun line => line) Sample.args
              Sample.execs (Sample.world_with Sample.compile_fails) rc
              results report Hmain) as (_ & Hc & Hsum & _).
  split; [exact Hc | exact Hsum].
Defined.

Lemma total_coverage_on_completion_witness :
  exists rc results report,
    Sample.main Sample.compile_fails = Return rc (Some (results, report))
    /\ size results = 2%nat
    /\ length (tests report) = 2%nat.
Proof.
  destruct (total_coverage_on_completion (fun line => line) Sample.args
              Sample.execs Sample.execs
              (Sample.world_with Sample.compile_fails))
    as (rc & results & report & Hmain & Hsize & _ & _ & Htests).
  - reflexivity.
  - reflexivity.
  - discriminate.
  - reflexivity.
  - compute_done.
  - compute_done.
  - intros k Hk.
    apply elem_of_cons in Hk as [-> | Hk];
      [|apply list_elem_of_singleton in Hk as ->]; compute_done.
  - intros e He.
    apply elem_of_cons in He as [-> | He];
      [|apply list_elem_of_singleton in He as ->];
      vm_compute; exact I.
  - reflexivity.
  - exists rc, results, report. auto.
Defined.

Lemma logged_isolation_failure_fails_one_job_witness :
  exists rc results report r,
    Sample.main Sample.copy_breaks = Return rc (Some (results, report))
    /\ rc = 2
    /\ size results = 2%nat
    /\ results !! "fuzz-decompress" = Some r
    /\ status r = "failed".
Proof.
  destruct (logged_isolation_failure_fails_one_job (fun l => l) Sample.args
              Sample.execs Sample.execs
              (Sample.world_with Sample.copy_breaks) Sample.decompress)
    as [_ (rc & results & report & r & Hmain & Hrc & Hsize & Hr & Hs & _)].
  - reflexivity.
  - reflexivity.
  - reflexivity.
  - compute_done.
  - compute_done.
  - apply elem_of_cons. now left.
  - intros k Hk.
    apply elem_of_cons in Hk as [-> | Hk];
      [|apply list_elem_of_singleton in Hk as ->]; compute_done.
  - reflexivity.
  - exact I.
  - reflexivity.
  - reflexivity.
  - intros e' He' Hother.
    apply elem_of_cons in He' as [-> | He']; [contradiction|].
    apply list_elem_of_singleton in He' as ->.
    vm_compute. exact I.
  - exists rc, results, report, r. auto.
Defined.

Lemma isolation_failure_without_directory_aborts_witness :
  Sample.decompress
    ∈ filter_executions Sample.execs (args_filter Sample.args)
  /\ forall rc out, Sample.main Sample.unreadable_base <> Return rc out.
Proof.
  assert (Sample.decompress
            ∈ filter_executions Sample.execs (args_filter Sample.args))
    as Hin by (apply elem_of_cons; now left).
  split; [exact Hin|].
  exact (isolation_failure_without_directory_aborts (fun line => line)
           Sample.args Sample.execs (Sample.world_with Sample.unreadable_base)
           Sample.decompress "PermissionError" Hin eq_refl eq_refl eq_refl
           eq_refl).
Defined.

(** ** The live summary *)

Lemma count_three_statuses (l : list (string * JobResult)) :
  (length (filter (fun kr => status kr.2 = "passed") l)
   + length (filter (fun kr => status kr.2 = "failed") l)
   + length (filter (fun kr => status kr.2 = "running") l)
   <= length l)%nat.
Proof.
  induction l as [|[k r] l IH]; [done|].
  rewrite !filter_cons. simpl.
  repeat case_decide; simpl; try lia; congruence.
Qed.

(** X19: the counters of the summary line never add up to more than the
    total: a job is counted at most once, and the jobs that are queued or
    cancelled are counted in the total only. *)
Theorem summarize_within_total (results : gmap string JobResult) :
  let '(total, passed, failed, running) := summarize results in
  (passed + failed + running <= total)%nat
  /\ total = size results.
Proof.
  unfold summarize, count_status. split; [|reflexivity].
  rewrite <- (length_map_to_list results). apply count_three_statuses.
Qed.

Lemma insert_row_Permutation x l : insert_row x l ≡ₚ x :: l.
Proof.
  induction l as [|y l IH]; simpl; [done|].
  case_decide; [done|]. rewrite IH. apply Permutation_swap.
Qed.

Lemma sorted_rows_Permutation l : sorted_rows l ≡ₚ l.
Proof.
  induction l as [|x l IH]; simpl; [done|].
  by rewrite insert_row_Permutation, IH.
Qed.

Lemma insert_row_Sorted x l :
  Sorted (fun a b => start_key a <= start_key b) l ->
  Sorted (fun a b => start_key a <= start_key b) (insert_row x l).
Proof.
  induction l as [|y l IH]; intros Hl; simpl.
  - by repeat constructor.
  - case_decide as Hxy.
    + constructor; [done|]. by constructor.
    + apply Sorted_inv in Hl as [Hl Hhd].
      constructor; [by apply IH|].
      destruct l as [|z l]; simpl.
      * constructor. lia.
      * case_decide; constructor; [lia|].
        by apply HdRel_inv in Hhd.
Qed.

Lemma sorted_rows_Sorted l :
  Sorted (fun a b => start_key a <= start_key b) (sorted_rows l).
Proof.
  induction l as [|x l IH]; simpl; [constructor|].
  by apply insert_row_Sorted.
Qed.

Lemma insert_row_stable (z : Z) x l :
  filter (fun kr => start_key kr = z) (insert_row x l)
  = filter (fun kr => start_key kr = z) (x :: l).
Proof.
  induction l as [|y l IH]; simpl; [done|].
  case_decide as Hxy; [done|].
  rewrite filter_cons, IH, !filter_cons.
  repeat case_decide; try done; lia.
Qed.

Lemma sorted_rows_stable (z : Z) l :
  filter (fun kr => start_key kr = z) (sorted_rows l)
  = filter (fun kr => start_key kr = z) l.
Proof.
  induction l as [|x l IH]; simpl; [done|].
  by rewrite insert_row_stable, !filter_cons, IH.
Qed.

(** X20: the rows shown under the summary line are the first five (or
    all, when there are fewer) of the running jobs put in ascending order
    of start time, a job without start time counting as started at 0, and
    jobs with the same start time staying in the order of the dict. *)
Theorem running_rows_spec (items : list (string * JobResult)) :
  let running := filter (fun kr => status kr.2 = "running") items in
  exists rest,
    running_rows items ++ rest ≡ₚ running
    /\ Sorted (fun a b => start_key a <= start_key b)
         (running_rows items ++ rest)
    /\ (forall z,
          filter (fun kr => start_key kr = z) (running_rows items ++ rest)
          = filter (fun kr => start_key kr = z) running)
    /\ length (running_rows items) = (5 `min` length running)%nat.
Proof.
  intros running. unfold running_rows. fold running.
  exists (drop 5 (sorted_rows running)). rewrite take_drop.
  split; [apply sorted_rows_Permutation|].
  split; [apply sorted_rows_Sorted|].
  split; [intros z; apply sorted_rows_stable|].
  by rewrite length_take, sorted_rows_Permutation.
Qed.

(** ** The workspace copy, continued *)

Lemma elem_of_tree_names (n : string) (t : list entry) :
  n ∈ tree_names t <-> exists c, c ∈ t /\ n ∈ names_of c.
Proof.
  unfold tree_names. rewrite list_elem_of_In, in_concat. split.
  - intros (l & Hl & Hn). apply in_map_iff in Hl as (c & <- & Hc).
    exists c. by rewrite !list_elem_of_In.
  - intros (c & Hc & Hn). exists (names_of c).
    rewrite <- !list_elem_of_In. split; [|done].
    apply list_elem_of_In, in_map_iff. exists c.
    by rewrite <- list_elem_of_In.
Qed.

Lemma elem_of_names_of_Dir (n name : string) (children : list entry) :
  n ∈ names_of (Dir name children)
  <-> (n = name \/ n ∈ tree_names children).
Proof. simpl. by rewrite elem_of_cons. Qed.

Lemma elem_of_kept (ignored : gset string) (f : entry -> entry)
    (children : list entry) (c' : entry) :
  c' ∈ omap (fun c => if decide (entry_name c ∈ ignored) then None
                      else Some (f c)) children
  <-> exists c, c ∈ children /\ (entry_name c ∉ ignored) /\ c' = f c.
Proof.
  rewrite list_elem_of_omap. split.
  - intros (c & Hc & Hkeep). case_decide; [done|]. simplify_eq. eauto.
  - intros (c & Hc & Hkeep & ->). exists c. split; [done|].
    by rewrite decide_False.
Qed.

Lemma copy_entry_names_subset ignore (x : entry) : forall src n,
  n ∈ names_of (copy_entry ignore src x) -> n ∈ names_of x.
Proof.
  induction x as [name | name children IH] using entry_nested_ind;
    intros src n Hn; [exact Hn|].
  cbn [copy_entry] in Hn. rewrite elem_of_names_of_Dir in *.
  destruct Hn as [-> | Hn]; [by left|]. right.
  apply elem_of_tree_names in Hn as (c' & Hc' & Hn).
  apply elem_of_kept in Hc' as (c & Hc & _ & ->).
  apply elem_of_tree_names. exists c. split; [done|].
  rewrite Forall_forall in IH. eapply IH; [exact Hc | exact Hn].
Qed.

(** X21: the copy is a pruning of the source, whatever the callback
    ignores: every name met in the copy is a name met in the source. *)
Theorem copytree_names_subset ignore (src : Path) (t : list entry)
    (n : string) :
  n ∈ tree_names (copytree ignore src t) -> n ∈ tree_names t.
Proof.
  unfold copytree. rewrite !elem_of_tree_names.
  intros (c' & Hc' & Hn).
  apply elem_of_kept in Hc' as (c & Hc & _ & ->).
  exists c. split; [done|]. by eapply copy_entry_names_subset.
Qed.

Lemma ignore_only_excluded (dir : Path) (names : list string) (n : string) :
  n ∈ _ignore dir names -> n ∈ names /\ excluded_name n = true.
Proof.
  unfold _ignore, excluded_name. case_decide.
  - rewrite elem_of_list_to_set, list_elem_of_filter. intros [-> Hn].
    split; [done|]. apply orb_true_r.
  - rewrite elem_of_list_to_set, list_elem_of_filter. intros [Hex Hn].
    split; [done|]. by rewrite bool_decide_true.
Qed.

Lemma omap_keep_all (ignored : gset string) (f : entry -> entry)
    (children : list entry) :
  Forall (fun c => (entry_name c ∉ ignored) /\ f c = c) children ->
  omap (fun c => if decide (entry_name c ∈ ignored) then None
                 else Some (f c)) children = children.
Proof.
  induction 1 as [|c children [Hkeep Hc] _ IH]; [done|].
  cbn [omap list_omap]. rewrite decide_False by done. simpl.
  by rewrite Hc, IH.
Qed.

Lemma copy_entry_clean (x : entry) : forall src,
  (forall n, n ∈ names_of x -> excluded_name n = false) ->
  copy_entry _ignore src x = x.
Proof.
  induction x as [name | name children IH] using entry_nested_ind;
    intros src Hclean; [done|].
  cbn [copy_entry]. f_equal. apply omap_keep_all.
  rewrite Forall_forall in IH. apply Forall_forall. intros c Hc.
  assert (forall n, n ∈ names_of c -> excluded_name n = false) as Hc_clean.
  { intros n Hn. apply Hclean, elem_of_names_of_Dir. right.
    apply elem_of_tree_names. eauto. }
  split; [|by apply IH].
  intros Hig. apply ignore_only_excluded in Hig as [_ Hex].
  rewrite Hc_clean in Hex; [done|]. by destruct c; apply elem_of_cons; left.
Qed.

(** X22: a tree in which no name is covered by an exclusion pattern is
    copied whole. *)
Theorem copytree_clean_tree_is_copied_whole (src : Path) (t : list entry) :
  (forall n, n ∈ tree_names t -> excluded_name n = false) ->
  copytree _ignore src t = t.
Proof.
  intros Hclean. unfold copytree. apply omap_keep_all, Forall_forall.
  intros c Hc.
  assert (forall n, n ∈ names_of c -> excluded_name n = false) as Hc_clean.
  { intros n Hn. apply Hclean, elem_of_tree_names. eauto. }
  split; [|by apply copy_entry_clean].
  intros Hig. apply ignore_only_excluded in Hig as [_ Hex].
  rewrite Hc_clean in Hex; [done|]. by destruct c; apply elem_of_cons; left.
Qed.

Lemma kept_beside_no_exact (dir : Path) (children : list entry) (c : entry) :
  (forall d, d ∈ children -> entry_name d ∉ exact_ignored) ->
  c ∈ children ->
  entry_name c ∉ _ignore dir (map entry_name children) ->
  excluded_name (entry_name c) = false.
Proof.
  intros Hnone Hc Hkept. unfold excluded_name.
  rewrite bool_decide_false by (by apply Hnone). simpl.
  destruct (is_crash_artifact (entry_name c)) eqn:Hcrash; [|done].
  destruct Hkept. apply ignore_crash_artifacts_alone; [| |done].
  - intros m Hm. apply list_elem_of_fmap in Hm as (d & -> & Hd). by apply Hnone.
  - apply list_elem_of_fmap. eauto.
Qed.

Lemma copy_entry_excludes_crash_artifacts (x : entry) : forall src n,
  (forall m, m ∈ names_of x -> m ∉ exact_ignored) ->
  excluded_name (entry_name x) = false ->
  n ∈ names_of (copy_entry _ignore src x) -> excluded_name n = false.
Proof.
  induction x as [name | name children IH] using entry_nested_ind;
    intros src n Hnone Hroot Hn.
  - apply list_elem_of_singleton in Hn as ->. exact Hroot.
  - cbn [copy_entry] in Hn. apply elem_of_names_of_Dir in Hn as [-> | Hn];
      [exact Hroot|].
    apply elem_of_tree_names in Hn as (c' & Hc' & Hn).
    apply elem_of_kept in Hc' as (c & Hc & Hkept & ->).
    assert (forall m, m ∈ names_of c -> m ∉ exact_ignored) as Hc_none.
    { intros m Hm. apply Hnone, elem_of_names_of_Dir. right.
      apply elem_of_tree_names. eauto. }
    rewrite Forall_forall in IH.
    eapply (IH c); [exact Hc | exact Hc_none | | exact Hn].
    eapply kept_beside_no_exact; [|exact Hc|exact Hkept].
    intros d Hd. apply Hnone, elem_of_names_of_Dir. right.
    apply elem_of_tree_names. exists d. split; [done|].
    by destruct d; apply elem_of_cons; left.
Qed.

(** X23: where the source holds nothing named [.git], [.idea], [target]
    or [fuzz-out], the copy excludes every crash artifact as well: no name
    that an exclusion pattern covers is left in it. *)
Theorem copytree_excludes_crash_artifacts (src : Path) (t : list entry)
    (n : string) :
  (forall m, m ∈ tree_names t -> m ∉ exact_ignored) ->
  n ∈ tree_names (copytree _ignore src t) -> excluded_name n = false.
Proof.
  intros Hnone. unfold copytree. rewrite elem_of_tree_names.
  intros (c' & Hc' & Hn).
  apply elem_of_kept in Hc' as (c & Hc & Hkept & ->).
  eapply (copy_entry_excludes_crash_artifacts c); [| |exact Hn].
  - intros m Hm. apply Hnone, elem_of_tree_names. eauto.
  - eapply kept_beside_no_exact; [|exact Hc|exact Hkept].
    intros d Hd. apply Hnone, elem_of_tree_names. exists d. split; [done|].
    by destruct d; apply elem_of_cons; left.
Qed.

Lemma copytree_names_subset_witness :
  "Main.java" ∈ tree_names (copytree _ignore ["repo"] Sample.checkout)
  /\ "Main.java" ∈ tree_names Sample.checkout.
Proof.
  assert ("Main.java" ∈ tree_names (copytree _ignore ["repo"] Sample.checkout))
    as Hin by compute_done.
  split; [exact Hin|].
  exact (copytree_names_subset _ignore ["repo"] Sample.checkout "Main.java"
           Hin).
Defined.

Lemma copytree_clean_tree_is_copied_whole_witness :
  copytree _ignore ["repo"] [File "pom.xml"; Dir "src" [File "Main.java"]]
  = [File "pom.xml"; Dir "src" [File "Main.java"]].
Proof.
  apply copytree_clean_tree_is_copied_whole.
  intros n Hn. cbn [tree_names map names_of concat app] in Hn.
  rewrite !elem_of_cons, elem_of_nil in Hn.
  destruct Hn as [-> | [-> | [-> | []]]]; vm_compute; reflexivity.
Defined.

Lemma copytree_excludes_crash_artifacts_witness :
  "crash-1f3a"
    ∉ tree_names
        (copytree _ignore ["repo"]
           [File "crash-1f3a"; File "pom.xml";
            Dir "src" [File "hs_err_pid77.log"; File "Main.java"]]).
Proof.
  intros Hin.
  assert (excluded_name "crash-1f3a" = false) as Hno.
  { eapply copytree_excludes_crash_artifacts; [|exact Hin].
    intros m Hm. cbn [tree_names map names_of concat app] in Hm.
    rewrite !elem_of_cons, elem_of_nil in Hm.
    destruct Hm as [-> | [-> | [-> | [-> | [-> | []]]]]]; compute_done. }
  vm_compute in Hno. discriminate.
Defined.

Lemma copytree_excludes_exact_names_witness :
  "pom.xml" ∈ tree_names (copytree _ignore ["repo"] Sample.checkout)
  /\ "pom.xml" ∉ exact_ignored.
Proof.
  assert ("pom.xml" ∈ tree_names (copytree _ignore ["repo"] Sample.checkout))
    as Hin by compute_done.
  split; [exact Hin|].
  exact (copytree_excludes_exact_names ["repo"] Sample.checkout "pom.xml" Hin).
Defined.
